(** * lxEventServer: the zone relay of [server.js]

    A shallow embedding of the relay engine of [server.js]: the zone
    validation [isValid], the [connection] handler of the subscriber side
    ([lxClients]), the [connect] / [disconnect] / [offtrack] handlers of the
    upstream side ([ankiClients]), the [async.series] start-up, the checks
    of the command line and the [/info] and [/demozones] routes.

    Conventions.
    - A JavaScript value that may be [undefined] is an [option]; a query
      parameter, which is [undefined], a string or an array of strings, is
      a [Query].
    - An operation that raises on [undefined] ([x.length], [x.toUpperCase()],
      [x.indexOf(..)], [res.body], [JSON.parse]) returns a [completion].
    - Numbers the program only counts with ([cnxId], [events]) are naturals
      ([N]); numbers it computes with ([proxyport], [port]) are integers
      ([Z]), and [%] is the truncating remainder [Z.rem].  JavaScript numbers
      hold integers exactly below 2^53; the counters are read in that range.
    - Arrays are lists; [push] appends, [_.filter] keeps the matching
      elements in order, [_.remove] drops them in place.
    - The objects [d] built per zone are shared between their handlers and
      [ankiClients]: they live in [uplinks], and [ankiClients] holds
      references (positions in [uplinks]). *)

From Stdlib Require Import Sorted.
From stdpp Require Import base numbers list strings option.
From stdpp Require sorting.


(** ** Completions: a value, or a thrown JavaScript error *)

Inductive JsError : Type :=
  | TypeError
  | SyntaxError.

Inductive completion (A : Type) : Type :=
  | Normal (a : A)
  | Throw (e : JsError).

Arguments Normal {A} a.
Arguments Throw {A} e.

#[global] Instance completion_ret : MRet completion := fun A a => Normal a.

#[global] Instance completion_bind : MBind completion := fun A B f c =>
  match c with
  | Normal a => f a
  | Throw e => Throw e
  end.

(** ** Strings *)

(** [String.prototype.toUpperCase] is a built-in of the language; the
    development takes it as an interface. *)
Class CaseConversion : Type := toUpperCase : string -> string.

(** On ASCII text the built-in maps [a]..[z] to [A]..[Z] and keeps every
    other character. *)
Definition ascii_toUpperCase (c : Ascii.ascii) : Ascii.ascii :=
  let n := Ascii.N_of_ascii c in
  if (97 <=? n)%N && (n <=? 122)%N then Ascii.ascii_of_N (n - 32) else c.

Fixpoint string_toUpperCase (s : string) : string :=
  match s with
  | EmptyString => EmptyString
  | String c r => String (ascii_toUpperCase c) (string_toUpperCase r)
  end.

#[global] Instance ascii_case : CaseConversion := string_toUpperCase.

(** [!v] for a value that is a string or [undefined]: [undefined] and the
    empty string are falsy. *)
Definition js_not_string (v : option string) : bool :=
  match v with
  | None => true
  | Some s => bool_decide (s = "")
  end.

(** [!v] for a value that is an array or [undefined]: every array is truthy. *)
Definition js_not_array {A : Type} (v : option (list A)) : bool :=
  match v with
  | None => true
  | Some _ => false
  end.

(** [v.length]: a [TypeError] on [undefined]. *)
Definition js_length {A : Type} (v : option (list A)) : completion nat :=
  match v with
  | None => Throw TypeError
  | Some l => Normal (length l)
  end.

(** The value of a key of [socket.handshake.query]: [One None] is
    [undefined] (the key is absent), [One (Some s)] the string of a key
    given once, [Many vs] the array of the values of a key given more than
    once. *)
Inductive Query : Type :=
  | One (v : option string)
  | Many (vs : list string).

(** [!v] for a query value: [undefined] and the empty string are falsy,
    every array is truthy. *)
Definition js_not_query (v : Query) : bool :=
  match v with
  | One v => js_not_string v
  | Many _ => false
  end.

(** [v.toUpperCase()] for a query value: a [TypeError] on [undefined], and
    on an array, which has no such method. *)
Definition js_toUpperCase `{CaseConversion} (v : Query) : completion string :=
  match v with
  | One (Some s) => Normal (toUpperCase s)
  | One None => Throw TypeError
  | Many _ => Throw TypeError
  end.

(** [Array.prototype.indexOf] on strings: the first position holding [x],
    [-1] when there is none. *)
Fixpoint indexOf (l : list string) (x : string) : Z :=
  match l with
  | [] => (-1)%Z
  | y :: r =>
      if bool_decide (y = x) then 0%Z
      else let i := indexOf r x in
           if bool_decide (i = (-1)%Z) then (-1)%Z else (i + 1)%Z
  end.

(** [v.indexOf(x)]: a [TypeError] on [undefined]. *)
Definition js_indexOf (v : option (list string)) (x : string) : completion Z :=
  match v with
  | None => Throw TypeError
  | Some l => Normal (indexOf l x)
  end.

(** ** Zone validation (server.js, [isValid]) *)

Definition isValid `{CaseConversion}
    (demozonesId : option (list string)) (demozone : Query) : completion bool :=
  if js_not_query demozone then Normal false
  else if js_not_array demozonesId then Normal false
  else
    len ← js_length demozonesId;
    if bool_decide (len = 0%nat) then Normal false
    else
      up ← js_toUpperCase demozone;
      i ← js_indexOf demozonesId up;
      Normal (negb (bool_decide (i = (-1)%Z))).

(** ** Data model *)

(** A socket.io socket is known by its identity only. *)
Definition Socket : Type := nat.

(** An [offtrack] message: opaque to the server, kept as its text. *)
Definition Payload : Type := string.

(** An item of the catalog ([jBody.items]), with the fields the server reads. *)
Module Demozone.
Record t : Type := mk { id : string; name : string; proxyport : Z }.
End Demozone.

(** The object [cnx] of a registered subscriber (an element of [lxClients]). *)
Module Cnx.
Record t : Type := mk {
  id : N;
  demozone : string;
  timestampmilis : Z;
  timestamp : string;
  socket : Socket
}.
End Cnx.

(** The object [d] of an upstream connection (an element of [ankiClients]);
    [lastEvent] starts as [null]. *)
Module Upstream.
Record t : Type := mk {
  demozone : string;
  name : string;
  port : Z;
  events : N;
  lastEvent : option string
}.
End Upstream.

(** What the handlers of one upstream connection close over: the catalog
    item [demozone] and the object [d]. *)
Module Uplink.
Record t : Type := mk { demozone : Demozone.t; d : Upstream.t }.
End Uplink.

(** The module-level variables of server.js.  [ws_io] tells whether the
    socket.io server [ws.io] has been created. *)
Record Server : Type := mkServer {
  demozones : option (list Demozone.t);
  demozonesId : option (list string);
  cnxId : N;
  ankiClients : list nat;
  lxClients : list Cnx.t;
  uplinks : list Uplink.t;
  ws_io : bool
}.

Definition initial : Server :=
  {| demozones := None; demozonesId := None; cnxId := 0;
     ankiClients := []; lxClients := []; uplinks := []; ws_io := false |}.

Definition set_catalog (zs : list Demozone.t) (ids : list string) (s : Server) : Server :=
  {| demozones := Some zs; demozonesId := Some ids; cnxId := cnxId s;
     ankiClients := ankiClients s; lxClients := lxClients s;
     uplinks := uplinks s; ws_io := ws_io s |}.

Definition set_cnxId (n : N) (s : Server) : Server :=
  {| demozones := demozones s; demozonesId := demozonesId s; cnxId := n;
     ankiClients := ankiClients s; lxClients := lxClients s;
     uplinks := uplinks s; ws_io := ws_io s |}.

Definition set_ankiClients (l : list nat) (s : Server) : Server :=
  {| demozones := demozones s; demozonesId := demozonesId s; cnxId := cnxId s;
     ankiClients := l; lxClients := lxClients s;
     uplinks := uplinks s; ws_io := ws_io s |}.

Definition set_lxClients (l : list Cnx.t) (s : Server) : Server :=
  {| demozones := demozones s; demozonesId := demozonesId s; cnxId := cnxId s;
     ankiClients := ankiClients s; lxClients := l;
     uplinks := uplinks s; ws_io := ws_io s |}.

Definition set_uplinks (l : list Uplink.t) (s : Server) : Server :=
  {| demozones := demozones s; demozonesId := demozonesId s; cnxId := cnxId s;
     ankiClients := ankiClients s; lxClients := lxClients s;
     uplinks := l; ws_io := ws_io s |}.

Definition set_ws_io (b : bool) (s : Server) : Server :=
  {| demozones := demozones s; demozonesId := demozonesId s; cnxId := cnxId s;
     ankiClients := ankiClients s; lxClients := lxClients s;
     uplinks := uplinks s; ws_io := b |}.

(** ** What a handler does to the outside *)

(** The [log.info] and [log.error] lines of the handlers. *)
Inductive LogLine : Type :=
  | InvalidDemozone (demozone : Query)
  | ClientRegistered (demozone : string) (id : N)
  | SocketDisconnected (demozone : string) (id : N)
  | SocketError
  | EventForwarded (name : string) (n : nat)
  | EventIgnored (name : string)
  | UncaughtException (e : JsError).

Inductive Effect : Type :=
  | Emit (socket : Socket) (event : string) (msg : Payload)
  | Disconnect (socket : Socket) (close : bool)
  | Log (line : LogLine).

Definition namespace : string := "offtrack".

(** ** lodash on the two registries *)

(** [_.filter(lxClients, { 'demozone': z })]. *)
Definition filter_demozone (z : string) (l : list Cnx.t) : list Cnx.t :=
  filter (fun c => Cnx.demozone c = z) l.

(** [_.remove(lxClients, { 'id': id })]: what stays in the array. *)
Definition remove_id (id : N) (l : list Cnx.t) : list Cnx.t :=
  filter (fun c => Cnx.id c <> id) l.

(** The [demozone] property of the object a reference of [ankiClients]
    points to. *)
Definition demozone_of (us : list Uplink.t) (r : nat) : option string :=
  (fun u => Upstream.demozone (Uplink.d u)) <$> us !! r.

(** [_.remove(ankiClients, { 'demozone': z })]: what stays in the array. *)
Definition remove_demozone (us : list Uplink.t) (z : string) (l : list nat) : list nat :=
  filter (fun r => demozone_of us r <> Some z) l.

(** ** The subscriber side (server.js, [ws.io.on('connection', ..)]) *)

(** The [connection] handler: [demozone] is [socket.handshake.query.demozone],
    [timestampmilis] and [timestamp] are the clock readings [Date.now()] and
    [moment().format(..)]. *)
Definition onConnection `{CaseConversion} (s : Server)
    (demozone : Query) (socket : Socket)
    (timestampmilis : Z) (timestamp : string) : completion (Server * list Effect) :=
  valid ← isValid (demozonesId s) demozone;
  if negb valid then
    Normal (s, [Log (InvalidDemozone demozone); Disconnect socket true])
  else
    up ← js_toUpperCase demozone;
    let id := (cnxId s + 1)%N in
    let cnx := Cnx.mk id up timestampmilis timestamp socket in
    Normal (set_lxClients (lxClients s ++ [cnx]) (set_cnxId id s),
            [Log (ClientRegistered (Cnx.demozone cnx) (Cnx.id cnx))]).

(** The [disconnect] handler of the socket of [cnx]. *)
Definition onSocketDisconnect (s : Server) (cnx : Cnx.t) : Server * list Effect :=
  (set_lxClients (remove_id (Cnx.id cnx) (lxClients s)) s,
   [Log (SocketDisconnected (Cnx.demozone cnx) (Cnx.id cnx))]).

(** The [error] handler of a subscriber socket: it logs. *)
Definition onSocketError (s : Server) : Server * list Effect :=
  (s, [Log SocketError]).

(** ** The upstream side (server.js, third step of the series) *)

(** The object [d] built for a catalog item. *)
Definition newUpstream (demozone : Demozone.t) : Upstream.t :=
  {| Upstream.demozone := Demozone.id demozone;
     Upstream.name := Demozone.name demozone;
     Upstream.port := (Z.rem (Demozone.proxyport demozone) 100 + 10000)%Z;
     Upstream.events := 0;
     Upstream.lastEvent := None |}.

Definition newUplink (demozone : Demozone.t) : Uplink.t :=
  {| Uplink.demozone := demozone; Uplink.d := newUpstream demozone |}.

(** The [connect] handler of the [i]-th upstream socket: [ankiClients.push(d)]. *)
Definition onUplinkConnect (s : Server) (i : nat) : Server * list Effect :=
  match uplinks s !! i with
  | None => (s, [])
  | Some _ => (set_ankiClients (ankiClients s ++ [i]) s, [])
  end.

(** The [disconnect] handler of the [i]-th upstream socket:
    [_.remove(ankiClients, { 'demozone': demozone.id })]. *)
Definition onUplinkDisconnect (s : Server) (i : nat) : Server * list Effect :=
  match uplinks s !! i with
  | None => (s, [])
  | Some u =>
      (set_ankiClients
         (remove_demozone (uplinks s) (Demozone.id (Uplink.demozone u)) (ankiClients s)) s,
       [])
  end.

(** [d.events++; d.lastEvent = moment().format(..)] on the shared object. *)
Definition count_event (now : string) (u : Uplink.t) : Uplink.t :=
  let d := Uplink.d u in
  {| Uplink.demozone := Uplink.demozone u;
     Uplink.d :=
       {| Upstream.demozone := Upstream.demozone d;
          Upstream.name := Upstream.name d;
          Upstream.port := Upstream.port d;
          Upstream.events := (Upstream.events d + 1)%N;
          Upstream.lastEvent := Some now |} |}.

(** The [offtrack] handler of the [i]-th upstream socket; [now] is the clock
    reading [moment().format(..)]. *)
Definition onOfftrack (s : Server) (i : nat) (msg : Payload) (now : string)
    : Server * list Effect :=
  match uplinks s !! i with
  | None => (s, [])
  | Some u =>
      let d := Uplink.d u in
      let matches := filter_demozone (Upstream.demozone d) (lxClients s) in
      let forwarded := Log (EventForwarded (Upstream.name d) (length matches)) in
      if bool_decide (0 < length matches)%nat then
        (set_uplinks (<[i := count_event now u]> (uplinks s)) s,
         forwarded :: map (fun client => Emit (Cnx.socket client) namespace msg) matches)
      else
        (s, [forwarded; Log (EventIgnored (Upstream.name d))])
  end.

(** ** The event loop *)

Inductive Event : Type :=
  | Connection (demozone : Query) (socket : Socket)
      (timestampmilis : Z) (timestamp : string)
  | SocketDisconnect (cnx : Cnx.t)
  | SocketErr
  | UplinkConnect (i : nat)
  | UplinkDisconnect (i : nat)
  | Offtrack (i : nat) (msg : Payload) (now : string).

(** One callback of the loop.  An exception that leaves a handler reaches
    the [uncaughtException] handler of the process, which logs it; what the
    handler had not done yet is not done. *)
Definition step `{CaseConversion} (s : Server) (e : Event) : Server * list Effect :=
  match e with
  | Connection demozone socket ms ts =>
      match onConnection s demozone socket ms ts with
      | Normal r => r
      | Throw err => (s, [Log (UncaughtException err)])
      end
  | SocketDisconnect cnx => onSocketDisconnect s cnx
  | SocketErr => onSocketError s
  | UplinkConnect i => onUplinkConnect s i
  | UplinkDisconnect i => onUplinkDisconnect s i
  | Offtrack i msg now => onOfftrack s i msg now
  end.

Fixpoint run `{CaseConversion} (s : Server) (es : list Event) : Server * list Effect :=
  match es with
  | [] => (s, [])
  | e :: rest =>
      let '(s1, out1) := step s e in
      let '(s2, out2) := run s1 rest in
      (s2, out1 ++ out2)
  end.

(** ** Start-up (server.js, [async.series]) *)

(** A parsed catalog answer other than [null], by its property [items]:
    an array, or [None] for a value without it. *)
Record JBody : Type := mkJBody { items : option (list Demozone.t) }.

(** [res.body], by what [JSON.parse] makes of it: a text that is not JSON,
    the JSON text [null], or any other JSON value. *)
Inductive Body : Type :=
  | NotJson
  | JsonNull
  | Json (jBody : JBody).

(** The response [res] handed to the callback of [client.get]. *)
Record Response : Type := mkResponse { body : Body }.

(** The error [err] handed to the callback of [client.get]. *)
Record RestError : Type := mkRestError { message : string }.

(** [res.body]: a [TypeError] when [res] is [undefined]. *)
Definition js_body (res : option Response) : completion Body :=
  match res with
  | None => Throw TypeError
  | Some r => Normal (body r)
  end.

(** [JSON.parse]: a [SyntaxError] on a text that is not JSON; [None] is the
    value [null]. *)
Definition JSON_parse (b : Body) : completion (option JBody) :=
  match b with
  | NotJson => Throw SyntaxError
  | JsonNull => Normal None
  | Json j => Normal (Some j)
  end.

(** [jBody.items]: a [TypeError] on [null]. *)
Definition js_items (jBody : option JBody) : completion (option (list Demozone.t)) :=
  match jBody with
  | None => Throw TypeError
  | Some j => Normal (items j)
  end.

(** A step of the series: it hands [next] an error (or [null]). *)
Definition Task : Type := Server -> completion (option string * Server).

(** First step, the callback of [client.get(URI, ..)]. *)
Definition fetchCatalog (err : option RestError) (res : option Response) : Task :=
  fun s =>
    text ← js_body res;
    jBody ← JSON_parse text;
    match err with
    | Some e => Normal (Some (message e), s)
    | None =>
        its ← js_items jBody;
        match its with
        | None => Normal (Some "No demozones found. Aborting.", s)
        | Some l =>
            if bool_decide (length l = 0%nat) then
              Normal (Some "No demozones found. Aborting.", s)
            else
              Normal (None, set_catalog l (map Demozone.id l) s)
        end
    end.

(** Second step: the socket.io server [ws.io] and its [connection] handler. *)
Definition createServer : Task :=
  fun s => Normal (None, set_ws_io true s).

(** Third step: one object [d] and one upstream socket per catalog item
    ([async.eachSeries] runs no iteration over [undefined]). *)
Definition openUplinks : Task :=
  fun s => Normal (None, set_uplinks (map newUplink (default [] (demozones s))) s).

(** Fourth step: the two reporting routes. *)
Definition registerReports : Task :=
  fun s => Normal (None, s).

Inductive Startup : Type :=
  | Running (s : Server)
  | Exited (code : Z) (s : Server)
  | Uncaught (e : JsError) (s : Server).

(** [async.series(tasks, final)]: the steps in order; a truthy error stops
    them and reaches the final callback, which ends the process with
    [process.exit(2)].  An exception thrown by a step reaches the
    [uncaughtException] handler instead: it is logged, [next] is never
    called, so neither the later steps nor [process.exit(2)] are reached,
    and the process ends with nothing left to run. *)
Fixpoint series (tasks : list Task) (s : Server) : Startup :=
  match tasks with
  | [] => Running s
  | task :: rest =>
      match task s with
      | Throw e => Uncaught e s
      | Normal (err, s') =>
          if js_not_string err then series rest s' else Exited 2 s'
      end
  end.

Definition boot (err : option RestError) (res : option Response) : Startup :=
  series [fetchCatalog err res; createServer; openUplinks; registerReports] initial.

(** A catalog answer that parses to the given items. *)
Definition answer (zs : list Demozone.t) : option Response :=
  Some (mkResponse (Json (mkJBody (Some zs)))).

(** ** Reading the effects and the state *)

(** The identifiers handed out, as the [ClientRegistered] lines show them. *)
Definition registered_ids (out : list Effect) : list N :=
  omap (fun e => match e with Log (ClientRegistered _ id) => Some id | _ => None end) out.

(** The deliveries among the effects of a handler: the socket written to,
    the event name and the message, in the order of the [emit] calls. *)
Definition emits (out : list Effect) : list (Socket * string * Payload) :=
  omap (fun e => match e with Emit socket ev msg => Some (socket, ev, msg) | _ => None end) out.

(** The answer of the [/info] route: the objects of [ankiClients] without
    their [demozone], [port] and [socket], that is [name], [events] and
    [lastEvent]. *)
Definition infoReport (s : Server) : list (string * N * option string) :=
  omap (fun r =>
          (fun u => (Upstream.name (Uplink.d u), Upstream.events (Uplink.d u),
                     Upstream.lastEvent (Uplink.d u))) <$> uplinks s !! r)
       (ankiClients s).

(** The server a catalog answer starts, whatever way the start-up ends. *)
Definition server_of (st : Startup) : Server :=
  match st with
  | Running s => s
  | Exited _ s => s
  | Uncaught _ s => s
  end.

(** Whether the socket of the [i]-th upstream entry is connected: the code
    keeps no state field, the entry is connected when [ankiClients] holds
    its object. *)
Definition connected (s : Server) (i : nat) : bool :=
  bool_decide (i ∈ ankiClients s).

(** The object [d] of an uplink carries the identifier of its catalog item. *)
Definition uplink_wf (u : Uplink.t) : Prop :=
  Upstream.demozone (Uplink.d u) = Demozone.id (Uplink.demozone u).

(** The states of a running server: what a start-up reaches, and what the
    callbacks of the loop make of it. *)
Inductive reachable `{CaseConversion} : Server -> Prop :=
  | reachable_boot err res s :
      boot err res = Running s -> reachable s
  | reachable_step s e :
      reachable s -> reachable (step s e).1.

(** ** The [/demozones] route *)

(** [a <= b] on JavaScript strings: the code units are compared one by one,
    and a proper prefix comes first. *)
Fixpoint string_leb (a b : string) : bool :=
  match a, b with
  | EmptyString, _ => true
  | String _ _, EmptyString => false
  | String x a', String y b' =>
      if (Ascii.N_of_ascii x <? Ascii.N_of_ascii y)%N then true
      else if (Ascii.N_of_ascii x =? Ascii.N_of_ascii y)%N then string_leb a' b'
      else false
  end.

Definition string_le (a b : string) : Prop := string_leb a b = true.

#[global] Instance string_le_dec (a b : string) : Decision (string_le a b).
Proof. unfold string_le. apply _. Defined.

(** The answer of the [/demozones] route: the [demozone] of every object of
    [ankiClients], sorted ascending by [_.sortBy] (no value is dropped). *)
Definition demozonesReport (s : Server) : list string :=
  sorting.merge_sort string_le (omap (demozone_of (uplinks s)) (ankiClients s)).

(** ** The command line (server.js, lines 107-127) *)

(** What [commandLineArgs(optionDefinitions)] returns: an option that was
    not given is [undefined]. *)
Module Options.
Record t : Type := mk {
  dbhost : option string;
  eventserver : option string;
  pinginterval : option Z;
  pingtimeout : option Z;
  help : option bool;
  verbose : option bool
}.
End Options.

(** [!v] for a value that is a boolean or [undefined]. *)
Definition js_not_bool (v : option bool) : bool :=
  match v with
  | None => true
  | Some b => negb b
  end.

(** What is written with [console.log]: the usage guide, or a text. *)
Inductive Console : Type :=
  | Usage
  | Text (text : string).

Inductive Launch : Type :=
  | ExitWith (code : Z)
  | Proceed (level : string).

(** The checks before the series: [parsed] is the options, or the message of
    the error [commandLineArgs] threw.  [Proceed] carries [log.level]. *)
Definition launch (parsed : string + Options.t) : list Console * Launch :=
  match parsed with
  | inl msg => ([Usage; Text msg], ExitWith (-1))
  | inr options =>
      if js_not_string (Options.dbhost options) || js_not_string (Options.eventserver options)
      then ([Usage], ExitWith (-1))
      else if negb (js_not_bool (Options.help options)) then ([Usage], ExitWith 0)
      else ([], Proceed (if negb (js_not_bool (Options.verbose options))
                         then "verbose" else "info"))
  end.

(** ** Reading a run *)

(** What start-up fixes of an upstream entry: the catalog item of its
    handlers, and the [demozone], [name] and [port] of its object. *)
Definition uplink_static (u : Uplink.t) : Demozone.t * string * string * Z :=
  (Uplink.demozone u, Upstream.demozone (Uplink.d u),
   Upstream.name (Uplink.d u), Upstream.port (Uplink.d u)).

Definition uplink_events (u : Uplink.t) : N := Upstream.events (Uplink.d u).

(** The sum of the [events] counters of all upstream objects. *)
Definition total_events (s : Server) : N :=
  foldr N.add 0%N (map uplink_events (uplinks s)).

(** The sockets of the connection attempts of a sequence of callbacks. *)
Definition connections (es : list Event) : list Socket :=
  omap (fun e => match e with Connection _ socket _ _ => Some socket | _ => None end) es.

(** The sockets of the attempts that give the [demozone] key more than
    once. *)
Definition repeated (es : list Event) : list Socket :=
  omap (fun e => match e with Connection (Many _) socket _ _ => Some socket | _ => None end) es.

(** The messages the upstream sockets delivered in a sequence of callbacks. *)
Definition offtracks (es : list Event) : list Payload :=
  omap (fun e => match e with Offtrack _ msg _ => Some msg | _ => None end) es.

(** The sockets closed with [socket.disconnect(..)]. *)
Definition disconnects (out : list Effect) : list Socket :=
  omap (fun e => match e with Disconnect socket _ => Some socket | _ => None end) out.

(** The client counts of the "event received and forwarded" log lines. *)
Definition forwarded (out : list Effect) : list nat :=
  omap (fun e => match e with Log (EventForwarded _ n) => Some n | _ => None end) out.

(** The exceptions the [uncaughtException] handler logged. *)
Definition uncaught (out : list Effect) : list JsError :=
  omap (fun e => match e with Log (UncaughtException err) => Some err | _ => None end) out.

(** ** A sample deployment *)

(** A two-zone catalog, the server it starts, and that server after two
    subscribers have registered, one per zone. *)
Definition BARCELONA : Demozone.t := Demozone.mk "BARCELONA" "Barcelona" 8001.
Definition LONDON : Demozone.t := Demozone.mk "LONDON" "London" 8002.

Definition started : Server := server_of (boot None (answer [BARCELONA; LONDON])).

Definition subscribed : Server :=
  (run started [Connection (One (Some "barcelona")) 7 1000 "05/03/2017 21:51:39:751";
                Connection (One (Some "London")) 8 2000 "05/03/2017 21:51:40:751"]).1.

(** The same server once both upstream sockets have connected, the second
    zone first. *)
Definition linked : Server :=
  (run subscribed [UplinkConnect 1; UplinkConnect 0]).1.

(** A catalog that names one zone twice, started, with both upstream
    sockets connected. *)
Definition BARCELONA_BIS : Demozone.t := Demozone.mk "BARCELONA" "Barcelona bis" 8101.

Definition twins : Server :=
  (run (server_of (boot None (answer [BARCELONA; BARCELONA_BIS])))
       [UplinkConnect 0; UplinkConnect 1]).1.

(** * Properties *)

(** ** Strings and the catalog lookup *)

Lemma ascii_toUpperCase_idemp (c : Ascii.ascii) :
  ascii_toUpperCase (ascii_toUpperCase c) = ascii_toUpperCase c.
Proof. destruct c as [[] [] [] [] [] [] [] []]; reflexivity. Qed.

Lemma string_toUpperCase_idemp (s : string) :
  string_toUpperCase (string_toUpperCase s) = string_toUpperCase s.
Proof.
  induction s as [|c r IH]; simpl; [reflexivity|].
  rewrite ascii_toUpperCase_idemp, IH. reflexivity.
Qed.

Lemma indexOf_ge (l : list string) (x : string) : (-1 <= indexOf l x)%Z.
Proof.
  induction l as [|y r IH]; simpl; [lia|].
  repeat case_bool_decide; lia.
Qed.

Lemma indexOf_found (l : list string) (x : string) :
  indexOf l x <> (-1)%Z <-> x ∈ l.
Proof.
  induction l as [|y r IH]; simpl.
  - split; [congruence | intros Hin; inversion Hin].
  - rewrite elem_of_cons. pose proof (indexOf_ge r x) as Hge.
    case_bool_decide as Hy; [subst y; split; [tauto | lia]|].
    case_bool_decide as Hi.
    + split; [congruence|]. intros [Hx | Hin]; [congruence|].
      apply IH in Hin. contradiction.
    + split; [|lia]. intros _. right. apply IH. exact Hi.
Qed.

(** [isValid] on a parameter given at most once, as one boolean formula:
    it answers, and says yes exactly for a non-empty parameter whose
    upper-case form is an identifier of a loaded catalog. *)
Lemma isValid_Normal `{CaseConversion} (ids : option (list string)) (d : option string) :
  isValid ids (One d) =
  Normal match d, ids with
         | Some c, Some l => negb (bool_decide (c = "")) && bool_decide (toUpperCase c ∈ l)
         | _, _ => false
         end.
Proof.
  unfold isValid.
  destruct d as [c|]; simpl; [|reflexivity].
  case_bool_decide; simpl; [destruct ids; reflexivity|].
  destruct ids as [l|]; simpl; [|reflexivity].
  case_bool_decide as Hlen; simpl.
  - apply length_zero_iff_nil in Hlen. subst l.
    rewrite bool_decide_eq_false_2; [reflexivity | intros Hin; inversion Hin].
  - f_equal. pose proof (indexOf_found l (toUpperCase c)).
    repeat case_bool_decide; simpl; tauto.
Qed.

(** [isValid] on a parameter given more than once: the array passes the
    guard [!demozone]; the guards on the catalog answer [false] when it is
    not loaded or empty, and otherwise [demozone.toUpperCase()] is called on
    the array and raises. *)
Lemma isValid_Many `{CaseConversion} (ids : option (list string)) (vs : list string) :
  isValid ids (Many vs) =
  match ids with
  | Some (_ :: _) => Throw TypeError
  | _ => Normal false
  end.
Proof. destruct ids as [[|z l]|]; reflexivity. Qed.

(** ** Zone validation and its faults *)

(** C9 fails on the code for a parameter given more than once: with the
    catalog loaded, [isValid] is handed the array of the values, which no
    guard stops, and raises a [TypeError]. *)
Lemma isValid_repeated_key_throws :
  demozonesId started = Some ["BARCELONA"; "LONDON"] /\
  js_not_query (Many ["tokyo"; "osaka"]) = false /\
  isValid (demozonesId started) (Many ["tokyo"; "osaka"]) = Throw TypeError.
Proof. repeat split; reflexivity. Qed.

(** On a parameter given at most once (a string or [undefined]) and every
    catalog (an array or [undefined]) [isValid] answers: no [TypeError] is
    raised, and the answer is [false] for a missing parameter, for the
    empty string, for a catalog that is not loaded and for an empty
    catalog.  A parameter given more than once is answered with [false]
    under the last two as well. *)
Theorem isValid_total `{CaseConversion} :
  (forall ids v, exists b, isValid ids (One v) = Normal b) /\
  (forall ids, isValid ids (One None) = Normal false) /\
  (forall ids, isValid ids (One (Some "")) = Normal false) /\
  (forall demozone, isValid None demozone = Normal false) /\
  (forall demozone, isValid (Some []) demozone = Normal false).
Proof.
  split; [intros ids d; rewrite isValid_Normal; eauto|].
  split; [intros ids; rewrite isValid_Normal; reflexivity|].
  split; [intros [l|]; rewrite isValid_Normal; reflexivity|].
  split; intros [[c|]|vs]; rewrite ?isValid_Normal, ?isValid_Many; try reflexivity.
  rewrite (bool_decide_eq_false_2 (toUpperCase c ∈ [])); [|intros Hin; inversion Hin].
  rewrite andb_false_r. reflexivity.
Qed.

(** ** The connection handler *)

(** The handler on a parameter given at most once, as one case split on
    [isValid]'s formula. *)
Lemma onConnection_Normal `{CaseConversion} (s : Server) (demozone : option string)
    (socket : Socket) (ms : Z) (ts : string) :
  onConnection s (One demozone) socket ms ts =
  Normal match demozone, demozonesId s with
         | Some c, Some l =>
             if negb (bool_decide (c = "")) && bool_decide (toUpperCase c ∈ l) then
               (set_lxClients
                  (lxClients s ++ [Cnx.mk (cnxId s + 1) (toUpperCase c) ms ts socket])
                  (set_cnxId (cnxId s + 1) s),
                [Log (ClientRegistered (toUpperCase c) (cnxId s + 1)%N)])
             else (s, [Log (InvalidDemozone (One demozone)); Disconnect socket true])
         | _, _ => (s, [Log (InvalidDemozone (One demozone)); Disconnect socket true])
         end.
Proof.
  unfold onConnection. rewrite isValid_Normal.
  destruct demozone as [c|]; [|reflexivity].
  destruct (demozonesId s) as [l|]; [|reflexivity].
  destruct (negb (bool_decide (c = "")) && bool_decide (toUpperCase c ∈ l)); reflexivity.
Qed.

(** The handler on a parameter given more than once: with a loaded catalog
    the exception of [isValid] leaves the handler before
    [socket.disconnect(true)]; without one the attempt is refused. *)
Lemma onConnection_Many `{CaseConversion} (s : Server) (vs : list string)
    (socket : Socket) (ms : Z) (ts : string) :
  onConnection s (Many vs) socket ms ts =
  match demozonesId s with
  | Some (_ :: _) => Throw TypeError
  | _ => Normal (s, [Log (InvalidDemozone (Many vs)); Disconnect socket true])
  end.
Proof.
  unfold onConnection. rewrite isValid_Many.
  destruct (demozonesId s) as [[|z l]|]; reflexivity.
Qed.

(** The case analysis every statement about [step] starts with: one goal
    per branch of each handler (accepted and refused connections, and those
    with a repeated key, refused or left by an exception; an uplink that
    exists or not; a message with or without subscribers). *)
Ltac handler_cases s e :=
  let dz := fresh "dz" in
  let i := fresh "i" in
  destruct e as [[dz | ?] ? ? ? | ? | | i | i | i ? ?]; simpl;
  [ rewrite onConnection_Normal; destruct dz as [?|];
    [ destruct (demozonesId s) as [?|] eqn:?;
      [ destruct (negb _ && _) eqn:? | ] | ]
  | rewrite onConnection_Many; destruct (demozonesId s) as [[|? ?]|] eqn:?
  | |
  | unfold onUplinkConnect; destruct (uplinks s !! i) as [?|] eqn:?
  | unfold onUplinkDisconnect; destruct (uplinks s !! i) as [?|] eqn:?
  | unfold onOfftrack; destruct (uplinks s !! i) as [?|] eqn:?;
    [ simpl; case_bool_decide | ] ];
  simpl.

(** C3 fails on the code for an attempt that gives the [demozone] key more
    than once: its values name no zone of the loaded catalog, [isValid]
    raises on the array, and the exception leaves the handler before
    [socket.disconnect(true)].  The callback ends in the
    [uncaughtException] handler, which logs: the socket is not closed, and
    the attempt is not registered either. *)
Lemma onConnection_repeated_key_left_open :
  let attempt := Connection (Many ["tokyo"; "osaka"]) 9 0 "" in
  onConnection started (Many ["tokyo"; "osaka"]) 9 0 "" = Throw TypeError /\
  step started attempt = (started, [Log (UncaughtException TypeError)]) /\
  disconnects (step started attempt).2 = [] /\
  registered_ids (step started attempt).2 = [].
Proof. repeat split; reflexivity. Qed.

(** A connection whose zone parameter, given at most once, is missing,
    empty, or equal to no identifier of the loaded catalog when both are
    upper-cased is refused: the socket is closed with [disconnect(true)],
    and the server state ([lxClients], [cnxId] and all the rest) is what it
    was. *)
Theorem onConnection_rejects `{CaseConversion} (s : Server) (demozone : option string)
    (socket : Socket) (ms : Z) (ts : string) :
  (forall x, toUpperCase (toUpperCase x) = toUpperCase x) ->
  (demozone = None \/ demozone = Some "" \/
   exists c, demozone = Some c /\
     forall ids z, demozonesId s = Some ids -> z ∈ ids -> toUpperCase z <> toUpperCase c) ->
  onConnection s (One demozone) socket ms ts =
  Normal (s, [Log (InvalidDemozone (One demozone)); Disconnect socket true]).
Proof.
  intros Hidemp Hbad. rewrite onConnection_Normal.
  destruct Hbad as [-> | [-> | (c & -> & Hc)]]; [reflexivity | destruct (demozonesId s); reflexivity |].
  destruct (demozonesId s) as [l|] eqn:Hl; [|reflexivity].
  rewrite (bool_decide_eq_false_2 (toUpperCase c ∈ l)).
  - rewrite andb_false_r. reflexivity.
  - intros Hin. apply (Hc l (toUpperCase c) eq_refl Hin). apply Hidemp.
Qed.

Lemma onConnection_rejects_witness :
  onConnection started (One (Some "tokyo")) 7 0 "" =
  Normal (started, [Log (InvalidDemozone (One (Some "tokyo"))); Disconnect 7 true]).
Proof.
  apply (onConnection_rejects started (Some "tokyo") 7 0 "").
  - exact string_toUpperCase_idemp.
  - right; right. exists "tokyo". split; [reflexivity|].
    intros ids z [= <-] Hz. vm_compute in Hz.
    apply elem_of_cons in Hz as [-> | Hz]; [vm_compute; discriminate|].
    apply elem_of_cons in Hz as [-> | Hz]; [vm_compute; discriminate|].
    inversion Hz.
Defined.

(** C5 as stated fails on the empty identifier: with a catalog item whose
    [id] is the empty string, the parameter [""] is a casing variant of it
    (its upper-case form is that identifier), and the guard [!demozone]
    refuses the connection. *)
Lemma onConnection_empty_id_refused :
  let s := server_of (boot None (answer [Demozone.mk "" "Nowhere" 8001])) in
  demozonesId s = Some [""] /\
  "" ∈ [""] /\
  toUpperCase "" = "" /\
  onConnection s (One (Some "")) 7 0 "" =
  Normal (s, [Log (InvalidDemozone (One (Some ""))); Disconnect 7 true]).
Proof.
  repeat split; try reflexivity. apply list_elem_of_here.
Qed.

(** C5, amended.  For an identifier [zone] of the loaded catalog and a
    non-empty parameter whose upper-case form is [zone], the connection is
    accepted: no socket is closed, the next identifier is taken, and the new
    subscriber is appended to [lxClients] with [demozone] equal to [zone]. *)
Theorem onConnection_registers `{CaseConversion} (s : Server) (ids : list string)
    (zone : string) (c : string) (socket : Socket) (ms : Z) (ts : string) :
  demozonesId s = Some ids ->
  zone ∈ ids ->
  c <> "" ->
  toUpperCase c = zone ->
  onConnection s (One (Some c)) socket ms ts =
  Normal (set_lxClients (lxClients s ++ [Cnx.mk (cnxId s + 1) zone ms ts socket])
            (set_cnxId (cnxId s + 1) s),
          [Log (ClientRegistered zone (cnxId s + 1)%N)]).
Proof.
  intros Hids HZ Hc Hup. rewrite onConnection_Normal, Hids, Hup.
  rewrite (bool_decide_eq_false_2 (c = "")) by exact Hc.
  rewrite (bool_decide_eq_true_2 (zone ∈ ids)) by exact HZ.
  reflexivity.
Qed.

Lemma onConnection_registers_witness :
  onConnection started (One (Some "barcelona")) 7 1000 "01/01/2017 10:00:00:000" =
  Normal (set_lxClients
            (lxClients started ++ [Cnx.mk 1 "BARCELONA" 1000 "01/01/2017 10:00:00:000" 7])
            (set_cnxId 1 started),
          [Log (ClientRegistered "BARCELONA" 1%N)]).
Proof.
  apply (onConnection_registers started ["BARCELONA"; "LONDON"] "BARCELONA" "barcelona").
  - reflexivity.
  - apply list_elem_of_here.
  - discriminate.
  - reflexivity.
Defined.

(** The catalog identifiers are compared as stored: an identifier that is
    not in upper case is matched by no parameter at all, be it a string or
    missing. *)
Lemma isValid_mixed_case_id `{CaseConversion} (ids : list string) (demozone : option string) :
  (forall x, toUpperCase (toUpperCase x) = toUpperCase x) ->
  Forall (fun z => toUpperCase z <> z) ids ->
  isValid (Some ids) (One demozone) = Normal false.
Proof.
  intros Hidemp Hids. rewrite isValid_Normal. destruct demozone as [c|]; [|reflexivity].
  rewrite (bool_decide_eq_false_2 (toUpperCase c ∈ ids)).
  - rewrite andb_false_r. reflexivity.
  - intros Hin. rewrite Forall_forall in Hids. apply list_elem_of_In in Hin.
    apply (Hids _ Hin). apply Hidemp.
Qed.

Lemma isValid_mixed_case_id_witness :
  isValid (Some ["Barcelona"]) (One (Some "barcelona")) = Normal false.
Proof.
  apply (isValid_mixed_case_id ["Barcelona"] (Some "barcelona")).
  - exact string_toUpperCase_idemp.
  - constructor; [vm_compute; discriminate | constructor].
Defined.

(** ** Removing a subscriber *)

Lemma remove_id_absent (id : N) (l : list Cnx.t) :
  id ∉ map Cnx.id l -> remove_id id l = l.
Proof.
  unfold remove_id. induction l as [|c r IH]; simpl; intros Hnot; [reflexivity|].
  rewrite not_elem_of_cons in Hnot. destruct Hnot as [Hne Hr].
  rewrite filter_cons_True by congruence. f_equal. apply IH, Hr.
Qed.

Lemma remove_id_gone (id : N) (l : list Cnx.t) :
  id ∉ map Cnx.id (remove_id id l).
Proof.
  unfold remove_id. rewrite list_elem_of_fmap. intros (c & -> & Hc).
  apply list_elem_of_filter in Hc. tauto.
Qed.

(** C8.  Removing a subscriber by identifier is idempotent: an identifier
    that is in no element of [lxClients] leaves the array as it is, a second
    removal changes nothing, and so does a second [disconnect] callback or an
    [error] callback (which only logs) that comes after the first. *)
Theorem remove_id_idempotent :
  (forall id l, id ∉ map Cnx.id l -> remove_id id l = l) /\
  (forall id l, remove_id id (remove_id id l) = remove_id id l) /\
  (forall s cnx,
     (onSocketDisconnect (onSocketDisconnect s cnx).1 cnx).1 = (onSocketDisconnect s cnx).1) /\
  (forall s cnx,
     (onSocketError (onSocketDisconnect s cnx).1).1 = (onSocketDisconnect s cnx).1).
Proof.
  split; [exact remove_id_absent|].
  split; [intros id l; apply remove_id_absent, remove_id_gone|].
  split; [|reflexivity].
  intros s cnx. unfold onSocketDisconnect, set_lxClients; simpl.
  rewrite (remove_id_absent _ _ (remove_id_gone _ _)). reflexivity.
Qed.

(** ** The offtrack handler *)

Lemma onOfftrack_matched (s : Server) (i : nat) (u : Uplink.t) (msg : Payload) (now : string) :
  uplinks s !! i = Some u ->
  filter_demozone (Upstream.demozone (Uplink.d u)) (lxClients s) <> [] ->
  onOfftrack s i msg now =
  (set_uplinks (<[i := count_event now u]> (uplinks s)) s,
   Log (EventForwarded (Upstream.name (Uplink.d u))
          (length (filter_demozone (Upstream.demozone (Uplink.d u)) (lxClients s))))
   :: map (fun client => Emit (Cnx.socket client) namespace msg)
        (filter_demozone (Upstream.demozone (Uplink.d u)) (lxClients s))).
Proof.
  intros Hu Hm. unfold onOfftrack. rewrite Hu. simpl.
  rewrite bool_decide_eq_true_2; [reflexivity|].
  destruct (filter_demozone _ _); [congruence | simpl; lia].
Qed.

Lemma onOfftrack_unmatched (s : Server) (i : nat) (u : Uplink.t) (msg : Payload) (now : string) :
  uplinks s !! i = Some u ->
  filter_demozone (Upstream.demozone (Uplink.d u)) (lxClients s) = [] ->
  onOfftrack s i msg now =
  (s, [Log (EventForwarded (Upstream.name (Uplink.d u)) 0);
       Log (EventIgnored (Upstream.name (Uplink.d u)))]).
Proof.
  intros Hu Hm. unfold onOfftrack. rewrite Hu. simpl. rewrite Hm. reflexivity.
Qed.

Lemma emits_map_Emit (msg : Payload) (l : list Cnx.t) :
  emits (map (fun client => Emit (Cnx.socket client) namespace msg) l) =
  map (fun client => (Cnx.socket client, namespace, msg)) l.
Proof. induction l as [|c r IH]; simpl; [reflexivity|]. unfold emits in *. simpl. f_equal. exact IH. Qed.

(** The deliveries of an [offtrack] message: one per subscriber of the zone,
    in registration order, each with the message as received. *)
Lemma onOfftrack_emits (s : Server) (i : nat) (u : Uplink.t) (msg : Payload) (now : string) :
  uplinks s !! i = Some u ->
  emits (onOfftrack s i msg now).2 =
  map (fun client => (Cnx.socket client, namespace, msg))
    (filter_demozone (Upstream.demozone (Uplink.d u)) (lxClients s)).
Proof.
  intros Hu.
  destruct (filter_demozone (Upstream.demozone (Uplink.d u)) (lxClients s)) eqn:Hm.
  - rewrite (onOfftrack_unmatched s i u msg now Hu Hm). reflexivity.
  - rewrite (onOfftrack_matched s i u msg now Hu) by (rewrite Hm; discriminate).
    rewrite Hm. simpl. unfold emits. simpl. f_equal.
    apply (emits_map_Emit msg l).
Qed.

(** C1 as stated fails: on the started server, which has no subscriber, an
    [offtrack] message of the first zone leaves the whole state as it was,
    so [events] is still 0 and [lastEvent] still [null]. *)
Lemma onOfftrack_unsubscribed_not_counted :
  uplinks started !! 0%nat = Some (newUplink BARCELONA) /\
  filter_demozone "BARCELONA" (lxClients started) = [] /\
  (onOfftrack started 0 "{lap:3}" "05/03/2017 21:51:39:808").1 = started /\
  (Upstream.events ∘ Uplink.d) <$> uplinks (onOfftrack started 0 "{lap:3}" "05/03/2017 21:51:39:808").1 !! 0%nat
    = Some 0%N /\
  (Upstream.lastEvent ∘ Uplink.d) <$> uplinks (onOfftrack started 0 "{lap:3}" "05/03/2017 21:51:39:808").1 !! 0%nat
    = Some None.
Proof. repeat split; reflexivity. Qed.

(** C1, amended.  An [offtrack] message of a zone with at least one
    registered subscriber adds one to [events] of that zone's object and sets
    its [lastEvent] to the time of the callback; with no subscriber of the
    zone the server state is unchanged (the counter is not incremented, the
    timestamp is not set) and nothing is emitted. *)
Theorem onOfftrack_counts (s : Server) (i : nat) (u : Uplink.t) (msg : Payload) (now : string) :
  uplinks s !! i = Some u ->
  let matches := filter_demozone (Upstream.demozone (Uplink.d u)) (lxClients s) in
  let r := onOfftrack s i msg now in
  (matches <> [] ->
     exists u', uplinks r.1 !! i = Some u' /\
       Upstream.events (Uplink.d u') = (Upstream.events (Uplink.d u) + 1)%N /\
       Upstream.lastEvent (Uplink.d u') = Some now) /\
  (matches = [] -> r.1 = s /\ emits r.2 = []).
Proof.
  intros Hu matches r. subst matches r. split; intros Hm.
  - rewrite (onOfftrack_matched s i u msg now Hu Hm). simpl.
    exists (count_event now u). split; [|split; reflexivity].
    apply list_lookup_insert_eq. eapply lookup_lt_Some, Hu.
  - rewrite (onOfftrack_unmatched s i u msg now Hu Hm). split; reflexivity.
Qed.

Lemma onOfftrack_counts_witness :
  let r := onOfftrack subscribed 0 "{lap:3}" "05/03/2017 21:51:39:808" in
  (filter_demozone "BARCELONA" (lxClients subscribed) <> [] ->
     exists u', uplinks r.1 !! 0%nat = Some u' /\
       Upstream.events (Uplink.d u') = (0 + 1)%N /\
       Upstream.lastEvent (Uplink.d u') = Some "05/03/2017 21:51:39:808") /\
  (filter_demozone "BARCELONA" (lxClients subscribed) = [] -> r.1 = subscribed /\ emits r.2 = []).
Proof.
  apply (onOfftrack_counts subscribed 0 (newUplink BARCELONA) "{lap:3}" "05/03/2017 21:51:39:808").
  reflexivity.
Defined.

(** C2.  An [offtrack] message of a zone is emitted, unchanged and on the
    same event name, to the socket of every subscriber registered for that
    zone; every emission goes to such a subscriber, so none goes to a
    subscriber of another zone (sockets being distinct objects); the
    emissions are exactly one per matching subscriber, in registration
    order. *)
Theorem onOfftrack_fanout (s : Server) (i : nat) (u : Uplink.t) (msg : Payload) (now : string) :
  uplinks s !! i = Some u ->
  let zone := Upstream.demozone (Uplink.d u) in
  let out := emits (onOfftrack s i msg now).2 in
  (forall c, c ∈ lxClients s -> Cnx.demozone c = zone ->
     (Cnx.socket c, namespace, msg) ∈ out) /\
  (forall socket ev m, (socket, ev, m) ∈ out ->
     ev = namespace /\ m = msg /\
     exists c, c ∈ lxClients s /\ Cnx.socket c = socket /\ Cnx.demozone c = zone) /\
  (NoDup (map Cnx.socket (lxClients s)) ->
   forall c, c ∈ lxClients s -> Cnx.demozone c <> zone ->
     forall ev m, (Cnx.socket c, ev, m) ∉ out) /\
  out = map (fun c => (Cnx.socket c, namespace, msg)) (filter_demozone zone (lxClients s)).
Proof.
  intros Hu zone out. subst out.
  rewrite (onOfftrack_emits s i u msg now Hu). fold zone.
  assert (Hback : forall socket ev m,
            (socket, ev, m) ∈ map (fun c => (Cnx.socket c, namespace, msg))
                                (filter_demozone zone (lxClients s)) ->
            ev = namespace /\ m = msg /\
            exists c, c ∈ lxClients s /\ Cnx.socket c = socket /\ Cnx.demozone c = zone).
  { intros socket ev m Hin. apply list_elem_of_fmap in Hin as (c & [= -> -> ->] & Hc).
    apply list_elem_of_filter in Hc as [Hz Hc]. eauto 10. }
  split; [|split; [exact Hback | split; [|reflexivity]]].
  - intros c Hc Hz. apply list_elem_of_fmap. exists c. split; [reflexivity|].
    apply list_elem_of_filter. split; assumption.
  - intros Hnd c Hc Hz ev m Hin.
    apply Hback in Hin as (_ & _ & c' & Hc' & Hsock & Hz').
    assert (c' = c); [|congruence].
    clear -Hnd Hc Hc' Hsock. induction (lxClients s) as [|x l IH]; [inversion Hc|].
    simpl in Hnd. inversion Hnd as [|? ? Hx Hnd']; subst.
    apply elem_of_cons in Hc as [-> | Hc]; apply elem_of_cons in Hc' as [-> | Hc'].
    + reflexivity.
    + exfalso. apply Hx. rewrite <- Hsock. apply list_elem_of_fmap. eauto.
    + exfalso. apply Hx. rewrite Hsock. apply list_elem_of_fmap. eauto.
    + apply IH; assumption.
Qed.

Lemma onOfftrack_fanout_witness :
  emits (onOfftrack subscribed 0 "{lap:3}" "05/03/2017 21:51:39:808").2 =
  [(7%nat, "offtrack", "{lap:3}")].
Proof.
  exact (proj2 (proj2 (proj2
    (onOfftrack_fanout subscribed 0 (newUplink BARCELONA) "{lap:3}"
       "05/03/2017 21:51:39:808" eq_refl)))).
Defined.

(** ** Start-up *)

(** What a start-up that reaches the running state has done. *)
Lemma boot_Running (err : option RestError) (res : option Response) (s : Server) :
  boot err res = Running s ->
  exists zs, demozones s = zs /\ cnxId s = 0%N /\ lxClients s = [] /\ ankiClients s = [] /\
    uplinks s = map newUplink (default [] zs) /\ ws_io s = true /\
    (zs = None /\ demozonesId s = None \/
     exists l, zs = Some l /\ l <> [] /\ demozonesId s = Some (map Demozone.id l)).
Proof.
  unfold boot. cbn [series]. unfold fetchCatalog.
  assert (Herr : forall m,
            (if js_not_string (Some m)
             then series [createServer; openUplinks; registerReports] initial
             else Exited 2 initial) = Running s ->
            exists zs, demozones s = zs /\ cnxId s = 0%N /\ lxClients s = [] /\
              ankiClients s = [] /\ uplinks s = map newUplink (default [] zs) /\
              ws_io s = true /\
              (zs = None /\ demozonesId s = None \/
               exists l, zs = Some l /\ l <> [] /\ demozonesId s = Some (map Demozone.id l))).
  { intros m. simpl. destruct (bool_decide (m = "")); [|discriminate].
    intros [= <-]. exists None. repeat split; eauto. }
  destruct res as [[[| |[its]]]|]; simpl; try discriminate.
  - destruct err as [[m]|]; simpl; [apply Herr | discriminate].
  - destruct err as [[m]|]; simpl; [apply Herr|].
    destruct its as [l|]; simpl; [|discriminate].
    case_bool_decide as Hlen; simpl; [discriminate|].
    intros [= <-]. exists (Some l). repeat split. right. exists l.
    repeat split. intros ->. apply Hlen. reflexivity.
Qed.

(** C7 fails on the code when the fetch fails: [JSON.parse(res.body)] runs
    before [err] is looked at.  With no response at all ([res] undefined) or
    with a body that is not JSON, the callback throws; the exception goes to
    the [uncaughtException] handler, which logs it, [next] is never called,
    and the abort of the final callback, [process.exit(2)], is never
    reached: the relay is not created, and the process ends without the
    abort status. *)
Lemma boot_fetch_failure_uncaught :
  boot (Some (mkRestError "connect ECONNREFUSED")) None = Uncaught TypeError initial /\
  boot (Some (mkRestError "Service Unavailable")) (Some (mkResponse NotJson))
    = Uncaught SyntaxError initial /\
  ws_io initial = false.
Proof. repeat split; reflexivity. Qed.

(** An empty or missing [items] ends the process with code 2 before the
    second step: [ws.io] is not created. *)
Lemma boot_empty_catalog_exits :
  boot None (answer []) = Exited 2 initial /\
  boot None (Some (mkResponse (Json (mkJBody None)))) = Exited 2 initial /\
  ws_io initial = false.
Proof. repeat split; reflexivity. Qed.



(** A non-empty catalog starts the server: the catalog and its identifiers
    are stored as received, the relay is created, one uplink per item. *)
Lemma boot_catalog_runs (zs : list Demozone.t) :
  zs <> [] ->
  boot None (answer zs) =
  Running {| demozones := Some zs; demozonesId := Some (map Demozone.id zs); cnxId := 0;
             ankiClients := []; lxClients := []; uplinks := map newUplink zs;
             ws_io := true |}.
Proof.
  intros Hzs. unfold boot. cbn [series]. unfold fetchCatalog, answer. simpl.
  rewrite bool_decide_eq_false_2; [reflexivity|].
  destruct zs; [congruence | discriminate].
Qed.

Lemma boot_catalog_runs_witness :
  boot None (answer [BARCELONA; LONDON]) =
  Running {| demozones := Some [BARCELONA; LONDON];
             demozonesId := Some ["BARCELONA"; "LONDON"]; cnxId := 0;
             ankiClients := []; lxClients := [];
             uplinks := [newUplink BARCELONA; newUplink LONDON]; ws_io := true |}.
Proof. apply (boot_catalog_runs [BARCELONA; LONDON]). discriminate. Defined.

(** No callback of the loop writes the catalog. *)
Lemma step_catalog `{CaseConversion} (s : Server) (e : Event) :
  demozones (step s e).1 = demozones s /\ demozonesId (step s e).1 = demozonesId s.
Proof. handler_cases s e; split; auto. Qed.

Lemma run_cons `{CaseConversion} (s : Server) (e : Event) (es : list Event) :
  run s (e :: es) = ((run (step s e).1 es).1, (step s e).2 ++ (run (step s e).1 es).2).
Proof.
  simpl. destruct (step s e) as [s1 out1]. simpl.
  destruct (run s1 es) as [s2 out2]. reflexivity.
Qed.

Lemma run_catalog `{CaseConversion} (s : Server) (es : list Event) :
  demozones (run s es).1 = demozones s /\ demozonesId (run s es).1 = demozonesId s.
Proof.
  revert s. induction es as [|e es IH]; intros s; [split; reflexivity|].
  rewrite run_cons. simpl. destruct (IH (step s e).1) as [-> ->]. apply step_catalog.
Qed.

(** ** The port of an uplink *)

(** C10 as stated fails on a negative [proxyport]: [%] keeps the sign of the
    dividend, so [-1 % 100] is [-1] and the port is 9999. *)
Lemma newUpstream_port_negative :
  Upstream.port (newUpstream (Demozone.mk "BARCELONA" "Barcelona" (-1))) = 9999%Z.
Proof. reflexivity. Qed.

(** The remainder is within 99 of zero whatever the sign. *)
Lemma newUpstream_port_bounds (demozone : Demozone.t) :
  (9901 <= Upstream.port (newUpstream demozone) <= 10099)%Z.
Proof.
  simpl. destruct (Z.le_gt_cases 0 (Demozone.proxyport demozone)) as [Hp | Hn].
  - pose proof (Z.rem_bound_pos (Demozone.proxyport demozone) 100 Hp). lia.
  - pose proof (Z.rem_bound_pos_neg (Demozone.proxyport demozone) 100). lia.
Qed.

(** C10, amended.  For a catalog item whose [proxyport] is a non-negative
    integer, the port of its upstream connection is
    [(proxyport mod 100) + 10000] and lies between 10000 and 10099, however
    large [proxyport] is. *)
Theorem newUpstream_port (demozone : Demozone.t) :
  (0 <= Demozone.proxyport demozone)%Z ->
  Upstream.port (newUpstream demozone) = (Demozone.proxyport demozone mod 100 + 10000)%Z /\
  (10000 <= Upstream.port (newUpstream demozone) <= 10099)%Z.
Proof.
  intros Hp. simpl. rewrite Z.rem_mod_nonneg by lia.
  pose proof (Z.mod_pos_bound (Demozone.proxyport demozone) 100). lia.
Qed.

Lemma newUpstream_port_witness :
  Upstream.port (newUpstream BARCELONA) = (8001 mod 100 + 10000)%Z /\
  (10000 <= Upstream.port (newUpstream BARCELONA) <= 10099)%Z.
Proof. apply (newUpstream_port BARCELONA). simpl. lia. Defined.

(** ** The upstream entries *)

Lemma count_event_wf (now : string) (u : Uplink.t) : uplink_wf u -> uplink_wf (count_event now u).
Proof. unfold uplink_wf. simpl. auto. Qed.

Lemma step_uplinks_wf `{CaseConversion} (s : Server) (e : Event) :
  Forall uplink_wf (uplinks s) -> Forall uplink_wf (uplinks (step s e).1).
Proof.
  intros Hwf. handler_cases s e; try exact Hwf.
  apply Forall_insert; [exact Hwf|].
  apply count_event_wf. rewrite Forall_lookup in Hwf. eauto.
Qed.

(** Every object [d] of a running server carries the identifier of the
    catalog item its handlers were built for. *)
Lemma reachable_uplinks_wf `{CaseConversion} (s : Server) :
  reachable s -> Forall uplink_wf (uplinks s).
Proof.
  induction 1 as [err res s Hboot | s e _ IH].
  - apply boot_Running in Hboot as (zs & _ & _ & _ & _ & -> & _).
    apply Forall_fmap, Forall_true. intros z. reflexivity.
  - apply step_uplinks_wf, IH.
Qed.

(** ** Subscriber identifiers *)

Lemma registered_ids_app (a b : list Effect) :
  registered_ids (a ++ b) = registered_ids a ++ registered_ids b.
Proof. apply omap_app. Qed.

Lemma registered_ids_Emit (msg : Payload) (l : list Cnx.t) :
  registered_ids (map (fun client => Emit (Cnx.socket client) namespace msg) l) = [].
Proof. induction l as [|c r IH]; [reflexivity | exact IH]. Qed.

(** One callback hands out no identifier and leaves [cnxId] alone, or hands
    out [cnxId + 1] and stores it. *)
Lemma step_registered `{CaseConversion} (s : Server) (e : Event) :
  (registered_ids (step s e).2 = [] /\ cnxId (step s e).1 = cnxId s) \/
  (registered_ids (step s e).2 = [(cnxId s + 1)%N] /\ cnxId (step s e).1 = (cnxId s + 1)%N).
Proof.
  handler_cases s e;
    first [ right; split; reflexivity
          | left; split; first [reflexivity | apply registered_ids_Emit] ].
Qed.

Lemma run_cnxId_mono `{CaseConversion} (s : Server) (es : list Event) :
  (cnxId s <= cnxId (run s es).1)%N.
Proof.
  revert s. induction es as [|e es IH]; intros s; [simpl; lia|].
  rewrite run_cons. simpl. specialize (IH (step s e).1).
  destruct (step_registered s e) as [[_ Hc] | [_ Hc]]; lia.
Qed.

Lemma StronglySorted_lt_NoDup (l : list N) : StronglySorted N.lt l -> NoDup l.
Proof.
  induction 1 as [|x l _ IH Hall]; constructor; [|exact IH].
  intros Hin. rewrite Forall_forall in Hall. apply list_elem_of_In in Hin.
  specialize (Hall x Hin). lia.
Qed.

(** C6.  Along any sequence of callbacks from any state (connections,
    disconnects, errors and upstream events in any order), the identifiers
    handed out to accepted connections are strictly increasing, hence
    pairwise different; each is above the counter the sequence started
    from, and none is above the counter it ends with: a disconnect gives no
    identifier back. *)
Theorem cnxId_strictly_increasing `{CaseConversion} (s : Server) (es : list Event) :
  let ids := registered_ids (run s es).2 in
  StronglySorted N.lt ids /\
  NoDup ids /\
  Forall (fun id => (cnxId s < id)%N) ids /\
  Forall (fun id => (id <= cnxId (run s es).1)%N) ids.
Proof.
  cbv zeta.
  assert (Hmain : StronglySorted N.lt (registered_ids (run s es).2) /\
                  Forall (fun id => (cnxId s < id)%N) (registered_ids (run s es).2) /\
                  Forall (fun id => (id <= cnxId (run s es).1)%N) (registered_ids (run s es).2)).
  { revert s. induction es as [|e es IH]; intros s.
    - simpl. repeat split; constructor.
    - rewrite run_cons. simpl. rewrite registered_ids_app.
      destruct (IH (step s e).1) as (Hsorted & Hlow & Hhigh).
      pose proof (run_cnxId_mono (step s e).1 es) as Hmono.
      destruct (step_registered s e) as [[-> Hc] | [-> Hc]]; simpl.
      + rewrite Hc in Hlow. repeat split; assumption.
      + rewrite Hc in Hlow, Hmono. repeat split.
        * constructor; assumption.
        * constructor; [lia|]. eapply Forall_impl; [|exact Hlow]. simpl. intros; lia.
        * constructor; assumption. }
  destruct Hmain as (Hsorted & Hlow & Hhigh).
  repeat split; try assumption. apply StronglySorted_lt_NoDup, Hsorted.
Qed.

(** ** The registry along a run *)

(** What one callback does to [lxClients] and [cnxId]: it appends one
    subscriber with the next identifier and a zone of the catalog, or it
    removes by identifier, or it leaves both alone. *)
Lemma step_lxClients `{CaseConversion} (s : Server) (e : Event) :
  (exists cnx ids,
     lxClients (step s e).1 = lxClients s ++ [cnx] /\
     cnxId (step s e).1 = (cnxId s + 1)%N /\
     Cnx.id cnx = (cnxId s + 1)%N /\
     demozonesId s = Some ids /\ Cnx.demozone cnx ∈ ids) \/
  (cnxId (step s e).1 = cnxId s /\
   exists id, lxClients (step s e).1 = remove_id id (lxClients s)) \/
  (cnxId (step s e).1 = cnxId s /\ lxClients (step s e).1 = lxClients s).
Proof.
  handler_cases s e;
    try (right; right; split; reflexivity);
    try (right; left; split; [reflexivity | eexists; reflexivity]).
  left. eexists _, _. repeat split; try reflexivity.
  match goal with Hok : _ && _ = true |- _ =>
    apply andb_true_iff in Hok as [_ Hin]; apply bool_decide_eq_true in Hin; exact Hin
  end.
Qed.

(** In every state of a running server, each registered subscriber carries
    a zone that is an identifier of the catalog. *)
Lemma reachable_zone_known `{CaseConversion} (s : Server) :
  reachable s ->
  Forall (fun c => exists ids, demozonesId s = Some ids /\ Cnx.demozone c ∈ ids) (lxClients s).
Proof.
  induction 1 as [err res s Hboot | s e _ IH].
  - apply boot_Running in Hboot as (zs & _ & _ & -> & _). constructor.
  - destruct (step_catalog s e) as [_ Hids]. rewrite Hids.
    destruct (step_lxClients s e) as [(cnx & ids & -> & _ & _ & Hl & Hin) | [[_ [id ->]] | [_ ->]]].
    + apply Forall_app_2; [exact IH|]. constructor; [|constructor]. eauto.
    + rewrite Forall_forall in IH. apply Forall_forall. intros c Hc.
      apply IH. apply list_elem_of_In in Hc. apply list_elem_of_In.
      unfold remove_id in Hc. apply list_elem_of_filter in Hc. tauto.
    + exact IH.
Qed.

Lemma reachable_subscribed : reachable subscribed.
Proof.
  change subscribed with
    (step (step started (Connection (One (Some "barcelona")) 7 1000 "05/03/2017 21:51:39:751")).1
       (Connection (One (Some "London")) 8 2000 "05/03/2017 21:51:40:751")).1.
  apply (reachable_step
           (step started (Connection (One (Some "barcelona")) 7 1000 "05/03/2017 21:51:39:751")).1
           (Connection (One (Some "London")) 8 2000 "05/03/2017 21:51:40:751")).
  apply (reachable_step started
           (Connection (One (Some "barcelona")) 7 1000 "05/03/2017 21:51:39:751")).
  apply (reachable_boot None (answer [BARCELONA; LONDON])). reflexivity.
Qed.

Lemma reachable_zone_known_witness :
  Forall (fun c => exists ids, demozonesId subscribed = Some ids /\ Cnx.demozone c ∈ ids)
    (lxClients subscribed).
Proof. apply (reachable_zone_known subscribed). exact reachable_subscribed. Defined.

(** In every state of a running server, the identifiers of the registered
    subscribers are pairwise different and none is above [cnxId]. *)
Lemma reachable_ids_distinct `{CaseConversion} (s : Server) :
  reachable s ->
  NoDup (map Cnx.id (lxClients s)) /\
  Forall (fun c => (Cnx.id c <= cnxId s)%N) (lxClients s).
Proof.
  induction 1 as [err res s Hboot | s e _ [IHnd IHle]].
  - apply boot_Running in Hboot as (zs & _ & _ & -> & _). split; constructor.
  - destruct (step_lxClients s e) as [(cnx & ids & -> & -> & Hid & _) | [[-> [id ->]] | [-> ->]]].
    + split.
      * rewrite map_app. simpl. apply list.NoDup_app. split; [exact IHnd|].
        split; [|apply NoDup_singleton].
        intros x Hx Hx'. apply list_elem_of_singleton in Hx'. subst x.
        apply list_elem_of_fmap in Hx as (c & Hc & Hin).
        rewrite Forall_forall in IHle. apply list_elem_of_In in Hin.
        specialize (IHle c Hin). simpl in IHle. lia.
      * apply Forall_app_2; [|constructor; [lia | constructor]].
        eapply Forall_impl; [|exact IHle]. simpl. intros; lia.
    + split.
      * eapply sublist_NoDup; [exact IHnd|]. apply fmap_sublist, sublist_filter.
      * rewrite Forall_forall in IHle. apply Forall_forall. intros c Hc.
        apply IHle. apply list_elem_of_In in Hc. apply list_elem_of_In.
        unfold remove_id in Hc. apply list_elem_of_filter in Hc. tauto.
    + split; assumption.
Qed.

Lemma reachable_ids_distinct_witness :
  NoDup (map Cnx.id (lxClients subscribed)) /\
  Forall (fun c => (Cnx.id c <= cnxId subscribed)%N) (lxClients subscribed).
Proof. apply (reachable_ids_distinct subscribed). exact reachable_subscribed. Defined.

(** After the [disconnect] of a subscriber, an [offtrack] message of its zone
    reaches the remaining subscribers of the zone, in the same order, and no
    subscriber with the removed identifier. *)
Lemma onSocketDisconnect_stops_delivery (s : Server) (cnx : Cnx.t) (i : nat) (u : Uplink.t)
    (msg : Payload) (now : string) :
  uplinks s !! i = Some u ->
  emits (onOfftrack (onSocketDisconnect s cnx).1 i msg now).2 =
  map (fun c => (Cnx.socket c, namespace, msg))
    (remove_id (Cnx.id cnx) (filter_demozone (Upstream.demozone (Uplink.d u)) (lxClients s))).
Proof.
  intros Hu. rewrite (onOfftrack_emits _ i u msg now) by exact Hu. simpl. f_equal.
  unfold filter_demozone, remove_id. rewrite !list_filter_filter.
  apply list_filter_iff. intros c. tauto.
Qed.

Lemma onSocketDisconnect_stops_delivery_witness :
  emits (onOfftrack
           (onSocketDisconnect subscribed (Cnx.mk 1 "BARCELONA" 1000 "05/03/2017 21:51:39:751" 7)).1
           0 "{lap:4}" "05/03/2017 21:52:10:100").2 =
  map (fun c => (Cnx.socket c, namespace, "{lap:4}"))
    (remove_id 1 (filter_demozone "BARCELONA" (lxClients subscribed))).
Proof.
  apply (onSocketDisconnect_stops_delivery subscribed
           (Cnx.mk 1 "BARCELONA" 1000 "05/03/2017 21:51:39:751" 7) 0 (newUplink BARCELONA)).
  reflexivity.
Defined.

(** The scenario of the specification, run on the code: subscriber A joins
    with [barcelona] and is registered as [BARCELONA]; a first message of
    that zone reaches A unchanged and is counted; A leaves; a second message
    is neither delivered nor counted (the counter stays at 1); subscriber B
    asks for [tokyo] and is disconnected, the registry staying empty. *)
Example scenario :
  let a := Cnx.mk 1 "BARCELONA" 1000 "05/03/2017 21:51:39:751" 7 in
  let r := run started
             [Connection (One (Some "barcelona")) 7 1000 "05/03/2017 21:51:39:751";
              Offtrack 0 "{lap:3}" "05/03/2017 21:51:39:808";
              SocketDisconnect a;
              Offtrack 0 "{lap:4}" "05/03/2017 21:52:10:100";
              Connection (One (Some "tokyo")) 8 3000 "05/03/2017 21:53:00:000"] in
  emits r.2 = [(7%nat, "offtrack", "{lap:3}")] /\
  registered_ids r.2 = [1%N] /\
  lxClients r.1 = [] /\
  cnxId r.1 = 1%N /\
  (Upstream.events ∘ Uplink.d) <$> uplinks r.1 !! 0%nat = Some 1%N /\
  (Upstream.lastEvent ∘ Uplink.d) <$> uplinks r.1 !! 0%nat = Some (Some "05/03/2017 21:51:39:808") /\
  Disconnect 8 true ∈ r.2.
Proof.
  vm_compute. repeat split.
  do 7 apply list_elem_of_further. apply list_elem_of_here.
Qed.

(** ** The order of [_.sortBy] on strings *)

Lemma string_leb_total (a b : string) : string_leb a b = true \/ string_leb b a = true.
Proof.
  revert b. induction a as [|x a IH]; intros [|y b]; simpl; auto.
  destruct (N.ltb_spec (Ascii.N_of_ascii x) (Ascii.N_of_ascii y)) as [Hlt | Hge]; [auto|].
  destruct (N.ltb_spec (Ascii.N_of_ascii y) (Ascii.N_of_ascii x)) as [Hlt' | Hge']; [auto|].
  assert (Heq : Ascii.N_of_ascii x = Ascii.N_of_ascii y) by lia.
  rewrite Heq, N.eqb_refl. apply IH.
Qed.

Lemma string_leb_trans (a b c : string) :
  string_leb a b = true -> string_leb b c = true -> string_leb a c = true.
Proof.
  revert b c. induction a as [|x a IH]; intros [|y b] [|z c]; simpl; try congruence.
  destruct (N.ltb_spec (Ascii.N_of_ascii x) (Ascii.N_of_ascii y)) as [Hxy | Hxy];
    destruct (N.ltb_spec (Ascii.N_of_ascii y) (Ascii.N_of_ascii z)) as [Hyz | Hyz];
    destruct (N.ltb_spec (Ascii.N_of_ascii x) (Ascii.N_of_ascii z)) as [Hxz | Hxz];
    try reflexivity; try lia;
    destruct (N.eqb_spec (Ascii.N_of_ascii x) (Ascii.N_of_ascii y)) as [Exy | Exy];
    destruct (N.eqb_spec (Ascii.N_of_ascii y) (Ascii.N_of_ascii z)) as [Eyz | Eyz];
    destruct (N.eqb_spec (Ascii.N_of_ascii x) (Ascii.N_of_ascii z)) as [Exz | Exz];
    try congruence; try lia.
  apply IH.
Qed.

Lemma string_leb_antisym (a b : string) :
  string_leb a b = true -> string_leb b a = true -> a = b.
Proof.
  revert b. induction a as [|x a IH]; intros [|y b]; simpl; try congruence.
  destruct (N.ltb_spec (Ascii.N_of_ascii x) (Ascii.N_of_ascii y)) as [Hxy | Hxy];
    destruct (N.ltb_spec (Ascii.N_of_ascii y) (Ascii.N_of_ascii x)) as [Hyx | Hyx];
    try lia;
    destruct (N.eqb_spec (Ascii.N_of_ascii x) (Ascii.N_of_ascii y)) as [Exy | Exy];
    destruct (N.eqb_spec (Ascii.N_of_ascii y) (Ascii.N_of_ascii x)) as [Eyx | Eyx];
    try congruence; try lia.
  intros Hab Hba. f_equal; [|apply IH; assumption].
  rewrite <- (Ascii.ascii_N_embedding x), <- (Ascii.ascii_N_embedding y), Exy. reflexivity.
Qed.

#[global] Instance string_le_total : Total string_le.
Proof. intros a b. apply string_leb_total. Qed.

#[global] Instance string_le_trans : Transitive string_le.
Proof. intros a b c. apply string_leb_trans. Qed.

(** ** What a run writes to the outside *)

Lemma omap_Emit_None {B : Type} (f : Effect -> option B) (msg : Payload) (l : list Cnx.t) :
  (forall socket ev m, f (Emit socket ev m) = None) ->
  omap f (map (fun client => Emit (Cnx.socket client) namespace msg) l) = [].
Proof. intros Hf. induction l as [|c r IH]; simpl; [reflexivity|]. rewrite Hf. exact IH. Qed.

(** One callback and the connection attempt it may carry: the attempt is
    registered, or its socket is closed, or an exception leaves the handler
    and it is neither; the last happens exactly for a repeated key under a
    loaded catalog, and nothing else registers, closes or raises. *)
Lemma step_connection `{CaseConversion} (s : Server) (e : Event) :
  uncaught (step s e).2 =
    match demozonesId s with
    | Some (_ :: _) => map (fun _ => TypeError) (repeated [e])
    | _ => []
    end /\
  length (connections [e]) =
    (length (registered_ids (step s e).2) + length (disconnects (step s e).2)
     + length (uncaught (step s e).2))%nat /\
  disconnects (step s e).2 `sublist_of` connections [e].
Proof.
  handler_cases s e; repeat split; try reflexivity;
    unfold uncaught, registered_ids, disconnects; simpl;
    rewrite ?omap_Emit_None by reflexivity; try reflexivity;
    try apply sublist_nil_l;
    match goal with
    | |- [] = match ?l with [] => _ | _ :: _ => _ end => destruct l; reflexivity
    | |- [] = match ?l with Some _ => _ | None => _ end =>
        destruct l as [[|? ?]|]; reflexivity
    end.
Qed.

Lemma run_app_out `{CaseConversion} {B : Type} (f : Effect -> option B) (s : Server)
    (e : Event) (es : list Event) :
  omap f (run s (e :: es)).2 = omap f (step s e).2 ++ omap f (run (step s e).1 es).2.
Proof. rewrite run_cons. simpl. apply omap_app. Qed.

(** The [uncaughtException] handler along a run: with a loaded catalog it
    is reached once per connection attempt that gives the [demozone] key
    more than once, each time with a [TypeError], and by no other callback,
    whatever the events and their parameters; with no catalog it is never
    reached. *)
Theorem run_uncaught `{CaseConversion} (s : Server) (es : list Event) :
  uncaught (run s es).2 =
  match demozonesId s with
  | Some (_ :: _) => map (fun _ => TypeError) (repeated es)
  | _ => []
  end.
Proof.
  revert s. induction es as [|e es IH]; intros s;
    [destruct (demozonesId s) as [[|? ?]|]; reflexivity|].
  unfold uncaught. rewrite run_app_out. fold (uncaught (step s e).2).
  fold (uncaught (run (step s e).1 es).2).
  rewrite IH. destruct (step_catalog s e) as [_ ->].
  destruct (step_connection s e) as [-> _].
  replace (repeated (e :: es)) with (repeated [e] ++ repeated es)
    by (destruct e as [[?|?] ? ? ?| | | | |]; reflexivity).
  destruct (demozonesId s) as [[|? ?]|]; try reflexivity.
  rewrite map_app. reflexivity.
Qed.

(** Every connection attempt of a run ends in exactly one of three ways: it
    is registered (one identifier is handed out), or its socket is closed,
    or an exception leaves its handler and it is neither.  The closed
    sockets are sockets of attempts, in the order of the attempts, and no
    other socket is ever closed; the attempts an exception leaves open are
    at most those with a repeated key, so a run without such attempts
    registers or closes every one. *)
Theorem run_connections_settled `{CaseConversion} (s : Server) (es : list Event) :
  length (connections es) =
    (length (registered_ids (run s es).2) + length (disconnects (run s es).2)
     + length (uncaught (run s es).2))%nat /\
  disconnects (run s es).2 `sublist_of` connections es /\
  (length (uncaught (run s es).2) <= length (repeated es))%nat /\
  (repeated es = [] ->
   length (connections es) =
     (length (registered_ids (run s es).2) + length (disconnects (run s es).2))%nat).
Proof.
  assert (Hmain : length (connections es) =
            (length (registered_ids (run s es).2) + length (disconnects (run s es).2)
             + length (uncaught (run s es).2))%nat /\
          disconnects (run s es).2 `sublist_of` connections es /\
          (length (uncaught (run s es).2) <= length (repeated es))%nat).
  { revert s. induction es as [|e es IH]; intros s;
      [split; [reflexivity | split; [constructor | simpl; lia]]|].
    unfold registered_ids, disconnects, uncaught. rewrite !run_app_out.
    fold (registered_ids (step s e).2) (registered_ids (run (step s e).1 es).2).
    fold (disconnects (step s e).2) (disconnects (run (step s e).1 es).2).
    fold (uncaught (step s e).2) (uncaught (run (step s e).1 es).2).
    destruct (IH (step s e).1) as (IHlen & IHsub & IHunc).
    destruct (step_connection s e) as (Hunc & Hlen & Hsub).
    replace (connections (e :: es)) with (connections [e] ++ connections es)
      by (destruct e; reflexivity).
    replace (repeated (e :: es)) with (repeated [e] ++ repeated es)
      by (destruct e as [[?|?] ? ? ?| | | | |]; reflexivity).
    rewrite !length_app. split; [lia|]. split; [apply sublist_app; assumption|].
    assert (length (uncaught (step s e).2) <= length (repeated [e]))%nat; [|lia].
    rewrite Hunc. destruct (demozonesId s) as [[|? ?]|]; simpl; try lia.
    rewrite length_map. lia. }
  destruct Hmain as (Hlen & Hsub & Hunc).
  split; [exact Hlen|]. split; [exact Hsub|]. split; [exact Hunc|].
  intros Hrep. rewrite Hrep in Hunc. simpl in Hunc. lia.
Qed.

(** A repeated key on the sample deployment: the attempt is left open, the
    exception is logged, and the server goes on registering. *)
Example repeated_key_run :
  let r := run started
             [Connection (Many ["barcelona"; "london"]) 9 500 "05/03/2017 21:51:39:251";
              Connection (One (Some "barcelona")) 7 1000 "05/03/2017 21:51:39:751"] in
  uncaught r.2 = [TypeError] /\
  disconnects r.2 = [] /\
  registered_ids r.2 = [1%N] /\
  map Cnx.socket (lxClients r.1) = [7%nat].
Proof. repeat split; reflexivity. Qed.

(** The deliveries of one callback: only an [offtrack] callback emits. *)
Lemma step_emits `{CaseConversion} (s : Server) (e : Event) :
  emits (step s e).2 =
  match e with
  | Offtrack i msg now =>
      match uplinks s !! i with
      | Some u => map (fun c => (Cnx.socket c, namespace, msg))
                    (filter_demozone (Upstream.demozone (Uplink.d u)) (lxClients s))
      | None => []
      end
  | _ => []
  end.
Proof.
  destruct e as [[dz | vs] sock ms ts | cnx | | i | i | i msg now]; simpl; try reflexivity.
  - rewrite onConnection_Normal. destruct dz as [c|]; [|reflexivity].
    destruct (demozonesId s) as [l|]; [|reflexivity].
    destruct (negb _ && _); reflexivity.
  - rewrite onConnection_Many. destruct (demozonesId s) as [[|z l]|]; reflexivity.
  - unfold onUplinkConnect. destruct (uplinks s !! i); reflexivity.
  - unfold onUplinkDisconnect. destruct (uplinks s !! i); reflexivity.
  - destruct (uplinks s !! i) as [u|] eqn:Hu; [apply (onOfftrack_emits s i u msg now Hu)|].
    unfold onOfftrack. rewrite Hu. reflexivity.
Qed.

(** The sockets of the registry after one callback are sockets it held
    before, or the socket of the connection attempt the callback carries. *)
Lemma step_sockets `{CaseConversion} (s : Server) (e : Event) (socket : Socket) :
  socket ∈ map Cnx.socket (lxClients (step s e).1) ->
  socket ∈ map Cnx.socket (lxClients s) \/ socket ∈ connections [e].
Proof.
  handler_cases s e; auto.
  - rewrite map_app, elem_of_app. simpl. intros [Hin | Hin]; [auto|].
    right. exact Hin.
  - intros Hin. left. apply list_elem_of_fmap in Hin as (c & -> & Hc).
    apply list_elem_of_fmap. exists c. split; [reflexivity|].
    unfold remove_id in Hc. apply list_elem_of_filter in Hc. tauto.
Qed.

(** The relay emits nothing of its own: every emission of a run is on the
    event name [offtrack], carries a message an upstream socket delivered in
    that run, unchanged, and goes to a socket that was registered at the
    start or made a connection attempt during the run. *)
Theorem run_emits_sound `{CaseConversion} (s : Server) (es : list Event)
    (socket : Socket) (ev : string) (m : Payload) :
  (socket, ev, m) ∈ emits (run s es).2 ->
  ev = namespace /\
  m ∈ offtracks es /\
  (socket ∈ map Cnx.socket (lxClients s) \/ socket ∈ connections es).
Proof.
  revert s. induction es as [|e es IH]; intros s; [intros Hin; inversion Hin|].
  unfold emits. rewrite run_app_out. fold (emits (step s e).2) (emits (run (step s e).1 es).2).
  replace (connections (e :: es)) with (connections [e] ++ connections es)
    by (destruct e; reflexivity).
  replace (offtracks (e :: es)) with (offtracks [e] ++ offtracks es)
    by (destruct e; reflexivity).
  rewrite !elem_of_app. intros [Hin | Hin].
  - rewrite step_emits in Hin.
    destruct e as [dz sock ms ts | cnx | | i | i | i msg now]; try (inversion Hin; fail).
    destruct (uplinks s !! i) as [u|]; [|inversion Hin].
    apply list_elem_of_fmap in Hin as (c & [= -> -> ->] & Hc).
    apply list_elem_of_filter in Hc as [_ Hc].
    split; [reflexivity|]. split; [left; apply list_elem_of_here|].
    left. apply list_elem_of_fmap. eauto.
  - apply IH in Hin as (-> & Hm & Hs). split; [reflexivity|]. split; [auto|].
    destruct Hs as [Hs | Hs]; [|auto].
    apply step_sockets in Hs. tauto.
Qed.

(** ** The upstream entries along a run *)

(** One callback leaves the upstream objects alone, or counts one event on
    one of them. *)
Lemma step_uplinks `{CaseConversion} (s : Server) (e : Event) :
  uplinks (step s e).1 = uplinks s \/
  exists i u now, uplinks s !! i = Some u /\
    uplinks (step s e).1 = <[i := count_event now u]> (uplinks s).
Proof. handler_cases s e; eauto 6. Qed.

Lemma count_event_insert (now : string) (l : list Uplink.t) (i : nat) (u : Uplink.t) :
  l !! i = Some u ->
  map uplink_static (<[i := count_event now u]> l) = map uplink_static l /\
  Forall2 (fun a b => (uplink_events a <= uplink_events b)%N) l (<[i := count_event now u]> l).
Proof.
  intros Hu. split.
  - change (map uplink_static) with (fmap (M := list) uplink_static).
    rewrite list_fmap_insert. apply list_insert_id.
    rewrite list_lookup_fmap, Hu. reflexivity.
  - rewrite <- (list_insert_id l i u Hu) at 1.
    apply Forall2_insert.
    + apply Forall_Forall2_diag, Forall_true. intros a. lia.
    + unfold uplink_events. simpl. lia.
Qed.

(** No callback adds, removes or re-targets an upstream entry: along any
    run the entries, their catalog items and the [demozone], [name] and
    [port] of their objects stay what they were, and no [events] counter
    decreases. *)
Theorem run_uplinks_static `{CaseConversion} (s : Server) (es : list Event) :
  map uplink_static (uplinks (run s es).1) = map uplink_static (uplinks s) /\
  Forall2 (fun a b => (uplink_events a <= uplink_events b)%N)
    (uplinks s) (uplinks (run s es).1).
Proof.
  revert s. induction es as [|e es IH]; intros s.
  - split; [reflexivity|]. apply Forall_Forall2_diag, Forall_true. intros a. simpl. lia.
  - rewrite run_cons. simpl. destruct (IH (step s e).1) as [IHs IHe].
    assert (Hstep : map uplink_static (uplinks (step s e).1) = map uplink_static (uplinks s) /\
                    Forall2 (fun a b => (uplink_events a <= uplink_events b)%N)
                      (uplinks s) (uplinks (step s e).1)).
    { destruct (step_uplinks s e) as [-> | (i & u & now & Hu & ->)].
      - split; [reflexivity|]. apply Forall_Forall2_diag, Forall_true. intros a. simpl. lia.
      - apply count_event_insert, Hu. }
    destruct Hstep as [Hs He]. split; [congruence|].
    eapply Forall2_trans; [|exact He|exact IHe]. simpl. intros; lia.
Qed.

(** ** An upstream entry across a disconnect *)

(** An upstream entry outlives every callback: its catalog item and the
    [demozone], [name] and [port] of its object stay, and its counter does
    not go down. *)
Lemma step_keeps_uplink `{CaseConversion} (s : Server) (e : Event) (i : nat) (u : Uplink.t) :
  uplinks s !! i = Some u ->
  exists u', uplinks (step s e).1 !! i = Some u' /\
    uplink_static u' = uplink_static u /\ (uplink_events u <= uplink_events u')%N.
Proof.
  intros Hu. destruct (step_uplinks s e) as [-> | (j & v & now & Hv & ->)].
  - exists u. split; [exact Hu|]. split; [reflexivity | lia].
  - destruct (decide (j = i)) as [-> | Hji].
    + rewrite list_lookup_insert_eq by (eapply lookup_lt_Some, Hu).
      exists (count_event now v). split; [reflexivity|].
      assert (v = u) by congruence. subst v.
      split; [reflexivity | unfold uplink_events; simpl; lia].
    + rewrite list_lookup_insert_ne by exact Hji.
      exists u. split; [exact Hu|]. split; [reflexivity | lia].
Qed.

Lemma run_keeps_uplink `{CaseConversion} (s : Server) (es : list Event) (i : nat) (u : Uplink.t) :
  uplinks s !! i = Some u ->
  exists u', uplinks (run s es).1 !! i = Some u' /\
    uplink_static u' = uplink_static u /\ (uplink_events u <= uplink_events u')%N.
Proof.
  revert s u. induction es as [|e es IH]; intros s u Hu.
  - exists u. split; [exact Hu|]. split; [reflexivity | lia].
  - rewrite run_cons. simpl.
    destruct (step_keeps_uplink s e i u Hu) as (u1 & Hu1 & Hs1 & He1).
    destruct (IH (step s e).1 u1 Hu1) as (u2 & Hu2 & Hs2 & He2).
    exists u2. split; [exact Hu2|]. split; [congruence | lia].
Qed.

Lemma run_uplinks_length `{CaseConversion} (s : Server) (es : list Event) :
  length (uplinks (run s es).1) = length (uplinks s).
Proof.
  revert s. induction es as [|e es IH]; intros s; [reflexivity|].
  rewrite run_cons. simpl. rewrite IH.
  destruct (step_uplinks s e) as [-> | (i & u & now & Hu & ->)];
    [reflexivity | apply length_insert].
Qed.

(** While its socket is disconnected an entry is not listed by the [/info]
    route, which reads [ankiClients]. *)
Example onUplinkDisconnect_not_reported :
  let s := (onUplinkConnect started 0).1 in
  ankiClients s = [0%nat] /\
  infoReport s = [("Barcelona", 0%N, None)] /\
  ankiClients (onUplinkDisconnect s 0).1 = [] /\
  infoReport (onUplinkDisconnect s 0).1 = [].
Proof. repeat split; reflexivity. Qed.

(** C4.  When the socket of an upstream entry reports a disconnect, the
    entry (the object [d] built at start-up for its catalog item) is not
    removed: the upstream objects of all zones are what they were, with
    their [events] and [lastEvent], and so are the subscribers and the
    identifier counter.  Only the connection state of the entry changes, to
    disconnected (its object leaves [ankiClients], with every object of the
    same zone identifier), the entries of the other zone identifiers keeping
    theirs.  The entry persists: the next [connect] makes it connected again
    with the counters it had, and after any later callbacks it is still
    there, no entry added or removed, with the same catalog item, zone, name
    and port and a counter that has not gone down. *)
Theorem onUplinkDisconnect_frame `{CaseConversion} (s : Server) (i : nat) (u : Uplink.t) :
  reachable s ->
  uplinks s !! i = Some u ->
  let s1 := (onUplinkDisconnect s i).1 in
  let s2 := (onUplinkConnect s1 i).1 in
  uplinks s1 = uplinks s /\
  lxClients s1 = lxClients s /\
  cnxId s1 = cnxId s /\
  ankiClients s1 =
    remove_demozone (uplinks s) (Demozone.id (Uplink.demozone u)) (ankiClients s) /\
  (i ∉ ankiClients s1) /\
  ankiClients s2 = ankiClients s1 ++ [i] /\
  uplinks s2 !! i = Some u /\
  connected s1 i = false /\
  connected s2 i = true /\
  (forall j, demozone_of (uplinks s) j <> demozone_of (uplinks s) i ->
     connected s1 j = connected s j) /\
  (forall es,
     length (uplinks (run s1 es).1) = length (uplinks s) /\
     exists u', uplinks (run s1 es).1 !! i = Some u' /\
       uplink_static u' = uplink_static u /\ (uplink_events u <= uplink_events u')%N).
Proof.
  intros Hreach Hu s1 s2. subst s2 s1.
  assert (Hzone : demozone_of (uplinks s) i = Some (Demozone.id (Uplink.demozone u))).
  { unfold demozone_of. rewrite Hu. simpl. f_equal.
    apply reachable_uplinks_wf in Hreach. rewrite Forall_lookup in Hreach.
    exact (Hreach i u Hu). }
  assert (Hout : i ∉ remove_demozone (uplinks s) (Demozone.id (Uplink.demozone u))
                       (ankiClients s)).
  { unfold remove_demozone. rewrite list_elem_of_filter. intros [Hne _].
    apply Hne. exact Hzone. }
  unfold connected, onUplinkDisconnect. rewrite Hu. simpl.
  unfold onUplinkConnect. simpl. rewrite Hu. simpl.
  split; [reflexivity|]. split; [reflexivity|]. split; [reflexivity|].
  split; [reflexivity|]. split; [exact Hout|]. split; [reflexivity|].
  split; [exact Hu|]. split; [apply bool_decide_eq_false_2, Hout|].
  split; [apply bool_decide_eq_true_2, elem_of_app; right; apply list_elem_of_here|].
  split.
  - intros j Hj. apply bool_decide_ext. unfold remove_demozone.
    rewrite list_elem_of_filter. rewrite Hzone in Hj. tauto.
  - intros es. rewrite run_uplinks_length. split; [reflexivity|].
    apply run_keeps_uplink. exact Hu.
Qed.

Lemma onUplinkDisconnect_frame_witness :
  let s := (run started [UplinkConnect 0; UplinkConnect 1]).1 in
  let s1 := (onUplinkDisconnect s 0).1 in
  let s2 := (onUplinkConnect s1 0).1 in
  uplinks s1 = uplinks s /\
  lxClients s1 = lxClients s /\
  cnxId s1 = cnxId s /\
  ankiClients s1 = remove_demozone (uplinks s) "BARCELONA" (ankiClients s) /\
  (0%nat ∉ ankiClients s1) /\
  ankiClients s2 = ankiClients s1 ++ [0%nat] /\
  uplinks s2 !! 0%nat = Some (newUplink BARCELONA) /\
  connected s1 0 = false /\
  connected s2 0 = true /\
  (forall j, demozone_of (uplinks s) j <> demozone_of (uplinks s) 0 ->
     connected s1 j = connected s j) /\
  (forall es,
     length (uplinks (run s1 es).1) = length (uplinks s) /\
     exists u', uplinks (run s1 es).1 !! 0%nat = Some u' /\
       uplink_static u' = uplink_static (newUplink BARCELONA) /\
       (uplink_events (newUplink BARCELONA) <= uplink_events u')%N).
Proof.
  apply (onUplinkDisconnect_frame
           (run started [UplinkConnect 0; UplinkConnect 1]).1 0 (newUplink BARCELONA)).
  - apply (reachable_step (step started (UplinkConnect 0)).1 (UplinkConnect 1)).
    apply (reachable_step started (UplinkConnect 0)).
    apply (reachable_boot None (answer [BARCELONA; LONDON])). reflexivity.
  - reflexivity.
Defined.

(** In every state of a running server, an upstream object has no
    [lastEvent] exactly when its [events] counter is 0. *)
Theorem reachable_lastEvent_events `{CaseConversion} (s : Server) :
  reachable s ->
  Forall (fun u => Upstream.lastEvent (Uplink.d u) = None <-> Upstream.events (Uplink.d u) = 0%N)
    (uplinks s).
Proof.
  induction 1 as [err res s Hboot | s e _ IH].
  - apply boot_Running in Hboot as (zs & _ & _ & _ & _ & -> & _).
    apply Forall_fmap, Forall_true. intros z. simpl. tauto.
  - destruct (step_uplinks s e) as [-> | (i & u & now & Hu & ->)]; [exact IH|].
    apply Forall_insert; [exact IH|]. simpl. split; [discriminate | lia].
Qed.

(** The references of [ankiClients] always point to an upstream object. *)
Lemma reachable_refs `{CaseConversion} (s : Server) :
  reachable s -> Forall (fun r => (r < length (uplinks s))%nat) (ankiClients s).
Proof.
  induction 1 as [err res s Hboot | s e _ IH].
  - apply boot_Running in Hboot as (zs & _ & _ & _ & -> & _). constructor.
  - assert (Hlen : length (uplinks (step s e).1) = length (uplinks s)).
    { destruct (step_uplinks s e) as [-> | (i & u & now & Hu & ->)];
        [reflexivity | apply length_insert]. }
    rewrite Hlen. clear Hlen. revert IH. handler_cases s e; intros IH; try exact IH.
    + apply Forall_app_2; [exact IH|]. constructor; [|constructor].
      eapply lookup_lt_Some. eassumption.
    + rewrite Forall_forall in IH. apply Forall_forall. intros r Hr.
      apply IH. apply list_elem_of_In in Hr. apply list_elem_of_In.
      unfold remove_demozone in Hr. apply list_elem_of_filter in Hr. tauto.
Qed.

(** A [disconnect] of one upstream socket also removes from [ankiClients]
    every other entry whose object carries the same zone identifier, be its
    socket still connected or not: the removal is by zone, not by object. *)
Theorem onUplinkDisconnect_same_zone (s : Server) (i j : nat) (u u' : Uplink.t) :
  uplinks s !! i = Some u ->
  uplinks s !! j = Some u' ->
  Upstream.demozone (Uplink.d u') = Demozone.id (Uplink.demozone u) ->
  j ∉ ankiClients (onUplinkDisconnect s i).1.
Proof.
  intros Hu Hu' Hz. unfold onUplinkDisconnect. rewrite Hu. simpl.
  unfold remove_demozone. rewrite list_elem_of_filter. intros [Hne _].
  apply Hne. unfold demozone_of. rewrite Hu'. simpl. f_equal. exact Hz.
Qed.

(** When the zone identifiers of the upstream objects are pairwise
    different, a [disconnect] removes from [ankiClients] the references to
    that object and nothing else. *)
Theorem onUplinkDisconnect_exact `{CaseConversion} (s : Server) (i : nat) (u : Uplink.t) :
  reachable s ->
  NoDup (map (fun v => Upstream.demozone (Uplink.d v)) (uplinks s)) ->
  uplinks s !! i = Some u ->
  ankiClients (onUplinkDisconnect s i).1 = filter (fun r => r <> i) (ankiClients s).
Proof.
  intros Hreach Hnd Hu. unfold onUplinkDisconnect. rewrite Hu. simpl.
  pose proof (reachable_uplinks_wf s Hreach) as Hwf.
  rewrite Forall_lookup in Hwf. specialize (Hwf i u Hu). unfold uplink_wf in Hwf.
  unfold remove_demozone. rewrite <- Hwf.
  assert (Hi : demozone_of (uplinks s) i = Some (Upstream.demozone (Uplink.d u)))
    by (unfold demozone_of; rewrite Hu; reflexivity).
  induction (ankiClients s) as [|r l IH]; [reflexivity|].
  rewrite !filter_cons, IH.
  destruct (decide (r = i)) as [-> | Hri].
  - rewrite decide_False by (intros Hne; apply Hne; exact Hi).
    rewrite decide_False by (intros Hne; apply Hne; reflexivity). reflexivity.
  - rewrite (decide_True (P := r <> i)) by exact Hri.
    rewrite decide_True; [reflexivity|].
    intros Hr. apply Hri. unfold demozone_of in Hr, Hi.
    rewrite <- list_lookup_fmap in Hr, Hi.
    exact (NoDup_lookup _ _ _ _ Hnd Hr Hi).
Qed.

(** The object an [offtrack] callback counts on is the one [ankiClients]
    refers to: when the message has a subscriber, the new counter and
    timestamp show in the [/info] answer if the upstream entry is in
    [ankiClients], and the answer is unchanged if it is not. *)
Theorem onOfftrack_infoReport (s : Server) (i : nat) (u : Uplink.t) (msg : Payload)
    (now : string) :
  uplinks s !! i = Some u ->
  filter_demozone (Upstream.demozone (Uplink.d u)) (lxClients s) <> [] ->
  let s' := (onOfftrack s i msg now).1 in
  (i ∈ ankiClients s ->
     (Upstream.name (Uplink.d u), (Upstream.events (Uplink.d u) + 1)%N, Some now)
       ∈ infoReport s') /\
  (i ∉ ankiClients s -> infoReport s' = infoReport s).
Proof.
  intros Hu Hm s'. subst s'. rewrite (onOfftrack_matched s i u msg now Hu Hm).
  unfold infoReport. simpl. split.
  - intros Hi. apply list_elem_of_omap. exists i. split; [exact Hi|].
    rewrite list_lookup_insert_eq by (eapply lookup_lt_Some, Hu). reflexivity.
  - intros Hi. apply list_omap_ext. apply Forall_Forall2_diag, Forall_forall.
    intros r Hr. rewrite list_lookup_insert_ne; [reflexivity|].
    intros ->. apply Hi. apply list_elem_of_In. exact Hr.
Qed.

(** ** Joining and leaving *)

(** No registered subscriber has an identifier above [cnxId]. *)
Lemma reachable_ids_bound `{CaseConversion} (s : Server) :
  reachable s -> Forall (fun c => (Cnx.id c <= cnxId s)%N) (lxClients s).
Proof.
  induction 1 as [err res s Hboot | s e _ IH].
  - apply boot_Running in Hboot as (zs & _ & _ & -> & _). constructor.
  - destruct (step_lxClients s e) as [(cnx & ids & -> & -> & Hid & _) | [[-> [id ->]] | [-> ->]]].
    + apply Forall_app_2; [|constructor; [lia | constructor]].
      eapply Forall_impl; [|exact IH]. simpl. intros; lia.
    + rewrite Forall_forall in IH. apply Forall_forall. intros c Hc.
      apply IH. apply list_elem_of_In in Hc. apply list_elem_of_In.
      unfold remove_id in Hc. apply list_elem_of_filter in Hc. tauto.
    + exact IH.
Qed.

(** A subscriber that joins and leaves again leaves no trace but its
    identifier: from any state of a running server, an accepted connection
    followed by the [disconnect] of that subscriber gives back the same
    state with [cnxId] one higher. *)
Theorem connect_disconnect_round_trip `{CaseConversion} (s : Server) (ids : list string)
    (c : string) (socket : Socket) (ms : Z) (ts : string) :
  reachable s ->
  demozonesId s = Some ids ->
  toUpperCase c ∈ ids ->
  c <> "" ->
  (run s [Connection (One (Some c)) socket ms ts;
          SocketDisconnect (Cnx.mk (cnxId s + 1) (toUpperCase c) ms ts socket)]).1
  = set_cnxId (cnxId s + 1) s.
Proof.
  intros Hreach Hids Hin Hc. rewrite !run_cons. simpl.
  rewrite onConnection_Normal, Hids.
  rewrite (bool_decide_eq_false_2 (c = "")) by exact Hc.
  rewrite (bool_decide_eq_true_2 (toUpperCase c ∈ ids)) by exact Hin. simpl.
  unfold remove_id. rewrite list.filter_app. simpl.
  rewrite filter_cons_False by (simpl; intros Hne; apply Hne; reflexivity).
  rewrite filter_nil, app_nil_r.
  assert (Hkeep : filter (fun c0 => Cnx.id c0 <> (cnxId s + 1)%N) (lxClients s) = lxClients s).
  { pose proof (reachable_ids_bound s Hreach) as Hle.
    induction Hle as [|x l Hx _ IH]; [reflexivity|].
    rewrite filter_cons_True by lia. f_equal. exact IH. }
  rewrite Hkeep. destruct s. reflexivity.
Qed.

(** ** The [/demozones] answer *)

#[global] Instance string_le_antisymm : AntiSymm eq string_le.
Proof. intros a b. apply string_leb_antisym. Qed.

Lemma omap_demozone_of_length (us : list Uplink.t) (l : list nat) :
  Forall (fun r => (r < length us)%nat) l ->
  length (omap (demozone_of us) l) = length l.
Proof.
  induction 1 as [|r l Hr _ IH]; [reflexivity|].
  apply lookup_lt_is_Some in Hr as [u Hu]. simpl. unfold demozone_of at 1.
  rewrite Hu. simpl. f_equal. exact IH.
Qed.

(** In every state of a running server the [/demozones] answer is the
    ascending arrangement of the zone identifiers of the entries of
    [ankiClients]: it is sorted, it holds a zone exactly when an entry of
    [ankiClients] carries it, it has one element per entry (a zone listed
    twice in [ankiClients] is answered twice), and it is the only sorted
    arrangement of those identifiers. *)
Theorem demozonesReport_sorted `{CaseConversion} (s : Server) :
  reachable s ->
  StronglySorted string_le (demozonesReport s) /\
  (forall z, z ∈ demozonesReport s <->
     exists r u, r ∈ ankiClients s /\ uplinks s !! r = Some u /\
                 Upstream.demozone (Uplink.d u) = z) /\
  length (demozonesReport s) = length (ankiClients s) /\
  (forall l, StronglySorted string_le l ->
     l ≡ₚ omap (demozone_of (uplinks s)) (ankiClients s) -> l = demozonesReport s).
Proof.
  intros Hreach. unfold demozonesReport.
  pose proof (sorting.merge_sort_Permutation string_le
                (omap (demozone_of (uplinks s)) (ankiClients s))) as Hperm.
  pose proof (sorting.StronglySorted_merge_sort string_le
                (omap (demozone_of (uplinks s)) (ankiClients s))) as Hsorted.
  split; [exact Hsorted|]. split; [|split].
  - intros z. rewrite Hperm, list_elem_of_omap. unfold demozone_of. split.
    + intros (r & Hr & Hz). destruct (uplinks s !! r) as [u|] eqn:Hu; [|discriminate].
      injection Hz as Hz. eauto.
    + intros (r & u & Hr & Hu & Hz). exists r. rewrite Hu. simpl. split; congruence.
  - rewrite Hperm. apply omap_demozone_of_length, reachable_refs, Hreach.
  - intros l Hl Hlp. apply (sorting.StronglySorted_unique string_le); [exact Hl | exact Hsorted|].
    rewrite Hlp, Hperm. reflexivity.
Qed.

(** ** Ports that coincide *)

(** The port keeps only the last two decimal digits of a non-negative
    [proxyport]: two catalog items get the same upstream port exactly when
    their [proxyport]s are congruent modulo 100. *)
Theorem newUpstream_port_collision (z1 z2 : Demozone.t) :
  (0 <= Demozone.proxyport z1)%Z ->
  (0 <= Demozone.proxyport z2)%Z ->
  Upstream.port (newUpstream z1) = Upstream.port (newUpstream z2) <->
  (Demozone.proxyport z1 mod 100 = Demozone.proxyport z2 mod 100)%Z.
Proof.
  intros H1 H2. simpl. rewrite !Z.rem_mod_nonneg by lia. lia.
Qed.

(** ** The command line *)

(** The series is started only with both [dbhost] and [eventserver] given
    and without [help]; the process ends with code 0 only for a [help]
    request that comes with both hosts ([help] alone ends with -1, since the
    hosts are tested first); every exit prints the usage guide first, and
    nothing is printed otherwise. *)
Theorem launch_outcomes (parsed : string + Options.t) :
  ((exists level, (launch parsed).2 = Proceed level) <->
   exists o, parsed = inr o /\ js_not_string (Options.dbhost o) = false /\
     js_not_string (Options.eventserver o) = false /\ js_not_bool (Options.help o) = true) /\
  ((launch parsed).2 = ExitWith 0 <->
   exists o, parsed = inr o /\ js_not_string (Options.dbhost o) = false /\
     js_not_string (Options.eventserver o) = false /\ Options.help o = Some true) /\
  (forall code, (launch parsed).2 = ExitWith code ->
     (code = 0 \/ code = -1)%Z /\ head (launch parsed).1 = Some Usage) /\
  (forall level, (launch parsed).2 = Proceed level ->
     (launch parsed).1 = [] /\ (level = "verbose" \/ level = "info")).
Proof.
  destruct parsed as [msg | [d e pi pt help verbose]]; simpl;
    [|destruct (js_not_string d) eqn:Hd; simpl;
      [|destruct (js_not_string e) eqn:He; simpl;
        [|destruct help as [[|]|]; simpl]]];
    (repeat split; intros;
     repeat match goal with
            | Hx : exists _, _ |- _ => destruct Hx
            | Hx : _ /\ _ |- _ => destruct Hx
            | Hx : inr _ = inr _ |- _ => injection Hx as <-
            | Hx : ExitWith _ = ExitWith _ |- _ => injection Hx as <-
            | Hx : Proceed _ = Proceed _ |- _ => injection Hx as <-
            end;
     simpl in *; try discriminate; try congruence;
     try (destruct verbose as [[|]|]; simpl; auto; fail);
     eauto 10).
Qed.

(** ** The outcomes of start-up *)


(** ** Counting and delivering *)

Lemma total_events_insert (now : string) (l : list Uplink.t) (i : nat) (u : Uplink.t) :
  l !! i = Some u ->
  foldr N.add 0%N (map uplink_events (<[i := count_event now u]> l)) =
  (foldr N.add 0%N (map uplink_events l) + 1)%N.
Proof.
  revert i. induction l as [|x l IH]; intros [|i] Hu; simpl in *; try discriminate.
  - injection Hu as ->. unfold uplink_events. simpl. lia.
  - rewrite (IH i Hu). lia.
Qed.

Lemma forwarded_Emit (msg : Payload) (l : list Cnx.t) :
  forwarded (map (fun client => Emit (Cnx.socket client) namespace msg) l) = [].
Proof. apply omap_Emit_None. reflexivity. Qed.

(** One callback: the sum of the counters grows by one exactly when a
    message was forwarded to at least one client, and the count of the
    "forwarded" log line is the number of emissions. *)
Lemma step_accounting `{CaseConversion} (s : Server) (e : Event) :
  total_events (step s e).1 =
    (total_events s + N.of_nat (length (filter (fun n => (0 < n)%nat) (forwarded (step s e).2))))%N /\
  length (emits (step s e).2) = foldr Nat.add 0%nat (forwarded (step s e).2).
Proof.
  destruct e as [[dz | vs] sock ms ts | cnx | | i | i | i msg now];
    try (simpl; split; [unfold total_events; simpl; lia | reflexivity]).
  - simpl. rewrite onConnection_Normal. destruct dz as [c|];
      [destruct (demozonesId s) as [l|]; [destruct (negb _ && _)|]|];
      (split; [unfold total_events; simpl; lia | reflexivity]).
  - simpl. rewrite onConnection_Many. destruct (demozonesId s) as [[|z l]|];
      (split; [unfold total_events; simpl; lia | reflexivity]).
  - simpl. unfold onUplinkConnect. destruct (uplinks s !! i);
      (split; [unfold total_events; simpl; lia | reflexivity]).
  - simpl. unfold onUplinkDisconnect. destruct (uplinks s !! i);
      (split; [unfold total_events; simpl; lia | reflexivity]).
  - simpl. destruct (uplinks s !! i) as [u|] eqn:Hu;
      [|unfold onOfftrack; rewrite Hu; split; [unfold total_events; simpl; lia | reflexivity]].
    destruct (filter_demozone (Upstream.demozone (Uplink.d u)) (lxClients s)) as [|c m] eqn:Hm.
    + rewrite (onOfftrack_unmatched s i u msg now Hu Hm). simpl.
      split; [unfold total_events; simpl; lia | reflexivity].
    + rewrite (onOfftrack_matched s i u msg now Hu) by (rewrite Hm; discriminate).
      rewrite Hm. unfold total_events, forwarded, emits. simpl.
      fold (forwarded (map (fun client => Emit (Cnx.socket client) namespace msg) m)).
      fold (emits (map (fun client => Emit (Cnx.socket client) namespace msg) m)).
      rewrite forwarded_Emit, (emits_map_Emit msg), length_map. simpl.
      split; [|lia]. rewrite (total_events_insert now _ i u Hu). lia.
Qed.

(** Along any run, the sum of the [events] counters of all zones grows by
    the number of upstream messages that were forwarded to at least one
    client, and the client counts written in the "forwarded" log lines add
    up to the number of emissions made. *)
Theorem run_accounting `{CaseConversion} (s : Server) (es : list Event) :
  total_events (run s es).1 =
    (total_events s + N.of_nat (length (filter (fun n => (0 < n)%nat) (forwarded (run s es).2))))%N /\
  length (emits (run s es).2) = foldr Nat.add 0%nat (forwarded (run s es).2).
Proof.
  revert s. induction es as [|e es IH]; intros s.
  - simpl. split; [lia | reflexivity].
  - unfold forwarded, emits. rewrite !run_app_out.
    fold (forwarded (step s e).2) (forwarded (run (step s e).1 es).2).
    fold (emits (step s e).2) (emits (run (step s e).1 es).2).
    rewrite run_cons. simpl.
    destruct (IH (step s e).1) as [IHt IHe]. destruct (step_accounting s e) as [Ht He].
    rewrite list.filter_app, !length_app, foldr_app.
    split; [lia|]. rewrite IHe, He.
    clear. generalize (foldr Nat.add 0%nat (forwarded (run (step s e).1 es).2)).
    induction (forwarded (step s e).2) as [|n l IHl]; intros k; simpl; [reflexivity|].
    rewrite <- (IHl k). lia.
Qed.

(** ** Staying registered *)

(** A registered subscriber stays registered through every callback that is
    not the [disconnect] of a subscriber with its identifier. *)
Lemma step_keeps_subscriber `{CaseConversion} (s : Server) (e : Event) (c : Cnx.t) :
  c ∈ lxClients s ->
  (forall cnx, e = SocketDisconnect cnx -> Cnx.id cnx <> Cnx.id c) ->
  c ∈ lxClients (step s e).1.
Proof.
  intros Hc Hkeep. revert Hkeep. handler_cases s e; intros Hkeep; try exact Hc.
  - apply elem_of_app. left. exact Hc.
  - unfold remove_id. apply list_elem_of_filter. split; [|exact Hc].
    intros Heq. exact (Hkeep _ eq_refl (eq_sym Heq)).
Qed.

(** The zone of an upstream object is the same after every callback. *)
Lemma step_keeps_zone `{CaseConversion} (s : Server) (e : Event) (i : nat) (u : Uplink.t) :
  uplinks s !! i = Some u ->
  exists u', uplinks (step s e).1 !! i = Some u' /\
    Upstream.demozone (Uplink.d u') = Upstream.demozone (Uplink.d u).
Proof.
  intros Hu. destruct (step_uplinks s e) as [-> | (j & v & now & Hv & ->)]; [eauto|].
  destruct (decide (j = i)) as [-> | Hji].
  - rewrite list_lookup_insert_eq by (eapply lookup_lt_Some, Hu).
    exists (count_event now v). split; [reflexivity|]. simpl. congruence.
  - rewrite list_lookup_insert_ne by exact Hji. eauto.
Qed.

(** A subscriber that stays registered misses nothing: if no [disconnect]
    callback of a run carries its identifier, every message an upstream
    socket of its zone delivers in that run is emitted to its socket,
    unchanged. *)
Theorem run_delivers `{CaseConversion} (s : Server) (es : list Event) (c : Cnx.t)
    (i : nat) (u : Uplink.t) (msg : Payload) (now : string) :
  c ∈ lxClients s ->
  uplinks s !! i = Some u ->
  Upstream.demozone (Uplink.d u) = Cnx.demozone c ->
  (forall cnx, SocketDisconnect cnx ∈ es -> Cnx.id cnx <> Cnx.id c) ->
  Offtrack i msg now ∈ es ->
  (Cnx.socket c, namespace, msg) ∈ emits (run s es).2.
Proof.
  revert s u. induction es as [|e es IH]; intros s u Hc Hu Hz Hstay Hin; [inversion Hin|].
  unfold emits. rewrite run_app_out. fold (emits (step s e).2) (emits (run (step s e).1 es).2).
  apply elem_of_app. apply elem_of_cons in Hin as [<- | Hin].
  - left. rewrite step_emits, Hu. apply list_elem_of_fmap. exists c. split; [reflexivity|].
    apply list_elem_of_filter. split; [congruence | exact Hc].
  - right. destruct (step_keeps_zone s e i u Hu) as (u' & Hu' & Hz').
    apply (IH (step s e).1 u').
    + apply step_keeps_subscriber; [exact Hc|].
      intros cnx ->. apply Hstay. apply list_elem_of_here.
    + exact Hu'.
    + congruence.
    + intros cnx Hcnx. apply Hstay. apply list_elem_of_further. exact Hcnx.
    + exact Hin.
Qed.

(** In every state of a running server [lxClients] is in registration
    order: the identifiers of its elements are strictly increasing, so the
    emissions of a message are made in the order the subscribers joined. *)
Theorem reachable_registration_order `{CaseConversion} (s : Server) :
  reachable s -> StronglySorted N.lt (map Cnx.id (lxClients s)).
Proof.
  intros Hreach. pose proof (reachable_ids_bound s Hreach) as Hle. revert Hle.
  induction Hreach as [err res s Hboot | s e Hreach IH]; intros Hle.
  - apply boot_Running in Hboot as (zs & _ & _ & -> & _). constructor.
  - specialize (IH (reachable_ids_bound s Hreach)).
    pose proof (reachable_ids_bound s Hreach) as Hle0.
    destruct (step_lxClients s e) as [(cnx & ids & -> & _ & Hid & _) | [[_ [id ->]] | [_ ->]]].
    + rewrite map_app. simpl. clear Hle. revert IH Hle0.
      induction (lxClients s) as [|x l IHl]; simpl; intros Hs Hb.
      * repeat constructor.
      * apply StronglySorted_inv in Hs as [Hs Hx].
        apply Forall_cons_1 in Hb as [Hxb Hb].
        constructor; [apply IHl; assumption|].
        apply Forall_app_2; [exact Hx|]. constructor; [lia | constructor].
    + clear Hle Hle0. unfold remove_id. revert IH.
      induction (lxClients s) as [|x l IHl]; simpl; intros Hs; [constructor|].
      apply StronglySorted_inv in Hs as [Hs Hx]. rewrite filter_cons.
      destruct (decide (Cnx.id x <> id)); [|apply IHl; exact Hs].
      simpl. constructor; [apply IHl; exact Hs|].
      rewrite Forall_forall in Hx. apply Forall_forall. intros y Hy. apply Hx.
      apply in_map_iff in Hy as (c & <- & Hc). apply in_map.
      apply list_elem_of_In in Hc. apply list_elem_of_In.
      apply list_elem_of_filter in Hc. tauto.
    + exact IH.
Qed.

(** Validation looks at the upper-case form only: two non-empty parameters
    with the same upper-case form are both accepted or both refused,
    whatever the catalog. *)
Theorem isValid_case_insensitive `{CaseConversion} (ids : option (list string))
    (c1 c2 : string) :
  c1 <> "" -> c2 <> "" -> toUpperCase c1 = toUpperCase c2 ->
  isValid ids (One (Some c1)) = isValid ids (One (Some c2)).
Proof.
  intros H1 H2 Hup. rewrite !isValid_Normal. destruct ids as [l|]; [|reflexivity].
  rewrite Hup, (bool_decide_eq_false_2 (c1 = "")), (bool_decide_eq_false_2 (c2 = ""))
    by assumption.
  reflexivity.
Qed.

(** ** The properties on the sample deployment *)

Lemma reachable_run `{CaseConversion} (s : Server) (es : list Event) :
  reachable s -> reachable (run s es).1.
Proof.
  revert s. induction es as [|e es IH]; intros s Hs; [exact Hs|].
  rewrite run_cons. simpl. apply IH, reachable_step, Hs.
Qed.

Lemma reachable_started : reachable started.
Proof. apply (reachable_boot None (answer [BARCELONA; LONDON])). reflexivity. Qed.

Lemma reachable_linked : reachable linked.
Proof.
  apply (reachable_run subscribed [UplinkConnect 1; UplinkConnect 0]).
  apply (reachable_run started
           [Connection (One (Some "barcelona")) 7 1000 "05/03/2017 21:51:39:751";
            Connection (One (Some "London")) 8 2000 "05/03/2017 21:51:40:751"]).
  exact reachable_started.
Qed.

Lemma run_emits_sound_witness :
  "offtrack" = namespace /\
  "{lap:3}" ∈ offtracks [Offtrack 0 "{lap:3}" "05/03/2017 21:51:39:808"; UplinkDisconnect 0] /\
  (7%nat ∈ map Cnx.socket (lxClients subscribed) \/
   7%nat ∈ connections [Offtrack 0 "{lap:3}" "05/03/2017 21:51:39:808"; UplinkDisconnect 0]).
Proof.
  apply (run_emits_sound subscribed
           [Offtrack 0 "{lap:3}" "05/03/2017 21:51:39:808"; UplinkDisconnect 0]
           7%nat "offtrack" "{lap:3}").
  vm_compute. apply list_elem_of_here.
Defined.

Lemma reachable_lastEvent_events_witness :
  Forall (fun u => Upstream.lastEvent (Uplink.d u) = None <-> Upstream.events (Uplink.d u) = 0%N)
    (uplinks (run linked [Offtrack 0 "{lap:3}" "05/03/2017 21:51:39:808"]).1).
Proof.
  apply (reachable_lastEvent_events
           (run linked [Offtrack 0 "{lap:3}" "05/03/2017 21:51:39:808"]).1).
  apply reachable_run. exact reachable_linked.
Defined.

Lemma onUplinkDisconnect_same_zone_witness :
  1%nat ∉ ankiClients (onUplinkDisconnect twins 0).1.
Proof.
  apply (onUplinkDisconnect_same_zone twins 0 1 (newUplink BARCELONA) (newUplink BARCELONA_BIS));
    reflexivity.
Defined.

Lemma onUplinkDisconnect_exact_witness :
  ankiClients (onUplinkDisconnect linked 0).1 = filter (fun r => r <> 0%nat) (ankiClients linked).
Proof.
  apply (onUplinkDisconnect_exact linked 0 (newUplink BARCELONA)).
  - exact reachable_linked.
  - vm_compute. apply NoDup_cons_2; [|apply NoDup_singleton].
    intros Hin. apply list_elem_of_singleton in Hin. discriminate.
  - reflexivity.
Defined.

Lemma onOfftrack_infoReport_witness :
  let s' := (onOfftrack linked 0 "{lap:3}" "05/03/2017 21:51:39:808").1 in
  (0%nat ∈ ankiClients linked ->
     ("Barcelona", (0 + 1)%N, Some "05/03/2017 21:51:39:808") ∈ infoReport s') /\
  (0%nat ∉ ankiClients linked -> infoReport s' = infoReport linked).
Proof.
  apply (onOfftrack_infoReport linked 0 (newUplink BARCELONA) "{lap:3}"
           "05/03/2017 21:51:39:808").
  - reflexivity.
  - vm_compute. discriminate.
Defined.

Lemma connect_disconnect_round_trip_witness :
  (run started
     [Connection (One (Some "barcelona")) 7 1000 "05/03/2017 21:51:39:751";
      SocketDisconnect (Cnx.mk (cnxId started + 1) (toUpperCase "barcelona") 1000
                          "05/03/2017 21:51:39:751" 7)]).1
  = set_cnxId (cnxId started + 1) started.
Proof.
  apply (connect_disconnect_round_trip started ["BARCELONA"; "LONDON"] "barcelona" 7 1000
           "05/03/2017 21:51:39:751").
  - exact reachable_started.
  - reflexivity.
  - apply list_elem_of_here.
  - discriminate.
Defined.

Lemma demozonesReport_sorted_witness :
  StronglySorted string_le (demozonesReport linked) /\
  (forall z, z ∈ demozonesReport linked <->
     exists r u, r ∈ ankiClients linked /\ uplinks linked !! r = Some u /\
                 Upstream.demozone (Uplink.d u) = z) /\
  length (demozonesReport linked) = length (ankiClients linked) /\
  (forall l, StronglySorted string_le l ->
     l ≡ₚ omap (demozone_of (uplinks linked)) (ankiClients linked) ->
     l = demozonesReport linked).
Proof. apply (demozonesReport_sorted linked). exact reachable_linked. Defined.

Example demozonesReport_linked :
  ankiClients linked = [1%nat; 0%nat] /\ demozonesReport linked = ["BARCELONA"; "LONDON"].
Proof. split; reflexivity. Qed.

Lemma newUpstream_port_collision_witness :
  Upstream.port (newUpstream BARCELONA) = Upstream.port (newUpstream BARCELONA_BIS) <->
  (8001 mod 100 = 8101 mod 100)%Z.
Proof. apply (newUpstream_port_collision BARCELONA BARCELONA_BIS); simpl; lia. Defined.

Lemma run_delivers_witness :
  (7%nat, namespace, "{lap:4}") ∈
  emits (run subscribed
           [Offtrack 0 "{lap:3}" "05/03/2017 21:51:39:808";
            SocketDisconnect (Cnx.mk 2 "LONDON" 2000 "05/03/2017 21:51:40:751" 8);
            Offtrack 0 "{lap:4}" "05/03/2017 21:52:10:100"]).2.
Proof.
  apply (run_delivers subscribed _
           (Cnx.mk 1 "BARCELONA" 1000 "05/03/2017 21:51:39:751" 7)
           0 (newUplink BARCELONA) "{lap:4}" "05/03/2017 21:52:10:100").
  - apply list_elem_of_here.
  - reflexivity.
  - reflexivity.
  - intros cnx Hin.
    apply elem_of_cons in Hin as [Hin | Hin]; [discriminate|].
    apply elem_of_cons in Hin as [[= ->] | Hin]; [simpl; lia|].
    apply elem_of_cons in Hin as [Hin | Hin]; [discriminate | inversion Hin].
  - do 2 apply list_elem_of_further. apply list_elem_of_here.
Defined.

Lemma reachable_registration_order_witness :
  StronglySorted N.lt (map Cnx.id (lxClients subscribed)).
Proof. apply (reachable_registration_order subscribed). exact reachable_subscribed. Defined.

Lemma isValid_case_insensitive_witness :
  isValid (Some ["BARCELONA"]) (One (Some "barcelona")) =
  isValid (Some ["BARCELONA"]) (One (Some "Barcelona")).
Proof.
  apply (isValid_case_insensitive (Some ["BARCELONA"]) "barcelona" "Barcelona");
    [discriminate | discriminate | reflexivity].
Defined.
